(** * Terminis: a shallow embedding of the falling-block engine of [main.py]

    The Python program is embedded function by function.  Python integers
    are [Z]; the time stamps and the drop interval are Python floats, whose
    type and operations are parameters of the engine (class [Float]), so
    that nothing is assumed of their rounding; a grid cell is
    [option Kind] with [None] for Python's [None]; list subscripts follow
    Python (negative subscripts count from the end, a subscript out of
    range raises [IndexError]); an exception is a value of the [result]
    monad.  [random.shuffle] and the outcome of [init_curses] are
    parameters too, and the one unbounded loop, in [hard_drop], runs on
    fuel.  [draw] and the loop of [run] around it, which act on the
    terminal, are not embedded. *)

From Stdlib Require Import ZArith QArith Qpower Lia.
From stdpp Require Import base option list.

Local Open Scope Z_scope.

(** ** Python values and exceptions *)

Module Py.

Inductive exn : Type :=
| IndexError
| AttributeError
| OverflowError
| CursesError.

Inductive result (A : Type) : Type :=
| Ok (a : A)
| Raise (e : exn).
Arguments Ok {A} a.
Arguments Raise {A} e.

#[global] Instance result_ret : MRet result := fun A a => Ok a.
#[global] Instance result_bind : MBind result := fun A B f m =>
  match m with
  | Ok a => f a
  | Raise e => Raise e
  end.

(** The value of a computation that returned. *)
Definition result_to_option {A} (m : result A) : option A :=
  match m with
  | Ok a => Some a
  | Raise _ => None
  end.

(** [l[i]]: the position a subscript denotes, if any. *)
Definition index {A} (l : list A) (i : Z) : option nat :=
  let n := Z.of_nat (length l) in
  let j := if i <? 0 then i + n else i in
  if (0 <=? j) && (j <? n) then Some (Z.to_nat j) else None.

Definition getitem {A} (l : list A) (i : Z) : result A :=
  match index l i with
  | Some j => match l !! j with Some a => Ok a | None => Raise IndexError end
  | None => Raise IndexError
  end.

Definition setitem {A} (l : list A) (i : Z) (a : A) : result (list A) :=
  match index l i with
  | Some j => Ok (<[j := a]> l)
  | None => Raise IndexError
  end.

(** [range(n)] *)
Definition range (n : Z) : list Z := seqZ 0 n.

(** [any(f(x) for x in xs)]: the generator is consumed up to the first
    true element, so a later element that would raise is not evaluated. *)
Fixpoint any {A} (f : A → result bool) (xs : list A) : result bool :=
  match xs with
  | [] => Ok false
  | x :: xs' => b ← f x; if b : bool then Ok true else any f xs'
  end.

End Py.
Export Py(result, Ok, Raise, exn, IndexError, AttributeError, OverflowError,
          CursesError).

(** ** Python floats

    The doubles of Python and the operations the engine applies to them.
    [float_pow x n] is [x ** n] for an integer [n], which raises
    [OverflowError] when the result or [n] is out of the range of a double;
    the product, the difference and the comparisons never raise. *)

Class Float : Type := {
  float : Type;
  lit_0_05 : float;
  lit_0_5 : float;
  lit_0_85 : float;
  lit_1_0 : float;
  float_pow : float → Z → result float;
  float_mul : float → float → float;
  float_sub : float → float → float;
  float_gt : float → float → bool;
  float_ge : float → float → bool
}.

(** [max(a, b)]: the first argument, unless the second is greater. *)
Definition float_max `{Float} (a b : float) : float :=
  if float_gt b a then b else a.

(** [0.85**level] returns at every level from 0 to [bound]: the
    condition under which a game that stays within these levels computes
    its drop intervals.  (A power of a double underflows to 0.0 without an
    exception, so the doubles meet it up to the integers too large to
    convert to a double, at which [0.85**level] raises.) *)
Definition gravity_defined `{Float} (bound : Z) : Prop :=
  ∀ level, 0 ≤ level ≤ bound → ∃ p, float_pow lit_0_85 level = Ok p.

(** ** Piece catalogue *)

Inductive Kind : Type := KI | KJ | KL | KO | KS | KT | KZ.

#[global] Instance Kind_eq_dec : EqDecision Kind.
Proof. solve_decision. Defined.

(** [list(TETROMINOES.keys())]: a dict keeps insertion order. *)
Definition TETROMINOES_keys : list Kind := [KI; KJ; KL; KO; KS; KT; KZ].

Definition TETROMINOES (k : Kind) : list (list (Z * Z)) :=
  match k with
  | KI => [ [(0, 1); (1, 1); (2, 1); (3, 1)];
            [(2, 0); (2, 1); (2, 2); (2, 3)];
            [(0, 2); (1, 2); (2, 2); (3, 2)];
            [(1, 0); (1, 1); (1, 2); (1, 3)] ]
  | KJ => [ [(0, 0); (0, 1); (1, 1); (2, 1)];
            [(1, 0); (2, 0); (1, 1); (1, 2)];
            [(0, 1); (1, 1); (2, 1); (2, 2)];
            [(1, 0); (1, 1); (0, 2); (1, 2)] ]
  | KL => [ [(2, 0); (0, 1); (1, 1); (2, 1)];
            [(1, 0); (1, 1); (1, 2); (2, 2)];
            [(0, 1); (1, 1); (2, 1); (0, 2)];
            [(0, 0); (1, 0); (1, 1); (1, 2)] ]
  | KO => [ [(1, 0); (2, 0); (1, 1); (2, 1)];
            [(1, 0); (2, 0); (1, 1); (2, 1)];
            [(1, 0); (2, 0); (1, 1); (2, 1)];
            [(1, 0); (2, 0); (1, 1); (2, 1)] ]
  | KS => [ [(1, 0); (2, 0); (0, 1); (1, 1)];
            [(1, 0); (1, 1); (2, 1); (2, 2)];
            [(1, 1); (2, 1); (0, 2); (1, 2)];
            [(0, 0); (0, 1); (1, 1); (1, 2)] ]
  | KT => [ [(1, 0); (0, 1); (1, 1); (2, 1)];
            [(1, 0); (1, 1); (2, 1); (1, 2)];
            [(0, 1); (1, 1); (2, 1); (1, 2)];
            [(1, 0); (0, 1); (1, 1); (1, 2)] ]
  | KZ => [ [(0, 0); (1, 0); (1, 1); (2, 1)];
            [(2, 0); (1, 1); (2, 1); (1, 2)];
            [(0, 1); (1, 1); (1, 2); (2, 2)];
            [(1, 0); (0, 1); (1, 1); (0, 2)] ]
  end.

(** ** Piece *)

Module Piece.

Record t : Type := mk { kind : Kind; rotation : Z; x : Z; y : Z }.

(** [TETROMINOES[self.kind][self.rotation % 4]].  Every kind has four
    rotation states, so the subscript [rotation % 4] is always in range
    (lemma [rotation_state_in_range]) and the default is never returned. *)
Definition state (p : t) : list (Z * Z) :=
  default [] (TETROMINOES (kind p) !! Z.to_nat (rotation p `mod` 4)).

Definition blocks (p : t) : list (Z * Z) :=
  map (λ b, (x p + b.1, y p + b.2)) (state p).

Definition rotated (p : t) (delta : Z) : t :=
  mk (kind p) ((rotation p + delta) `mod` 4) (x p) (y p).

End Piece.

(** ** Board *)

Module Board.

Record t : Type := mk {
  width : Z;
  height : Z;
  hidden : Z;
  grid : list (list (option Kind))
}.

Definition BOARD_WIDTH : Z := 10.
Definition BOARD_HEIGHT : Z := 20.
Definition HIDDEN_ROWS : Z := 4.

(** [Board.__init__] *)
Definition init (width height hidden : Z) : t :=
  mk width height hidden
     (map (λ _, map (λ _, None) (Py.range width)) (Py.range (height + hidden))).

Definition with_grid (b : t) (g : list (list (option Kind))) : t :=
  mk (width b) (height b) (hidden b) g.

Definition inside (b : t) (x y : Z) : bool :=
  (0 <=? x) && (x <? width b) && ((0 <=? y) && (y <? height b + hidden b)).

Definition empty (b : t) (x y : Z) : result bool :=
  if negb (inside b x y) then Ok false
  else row ← Py.getitem (grid b) y;
       cell ← Py.getitem row x;
       Ok (bool_decide (cell = None)).

(** The loop of [valid] over the rest of the blocks. *)
Fixpoint valid_loop (b : t) (bs : list (Z * Z)) : result bool :=
  match bs with
  | [] => Ok true
  | (x, y) :: rest =>
      c ← (if negb (inside b x y) then Ok true
           else e ← empty b x y; Ok (negb e));
      if c : bool then Ok false else valid_loop b rest
  end.

Definition valid (b : t) (p : Piece.t) : result bool :=
  valid_loop b (Piece.blocks p).

(** [self.grid[y][x] = kind].  The rows of a grid are distinct objects
    ([__init__] and [clear_lines] build each row afresh), so updating a
    row in place is updating the grid at that row. *)
Definition set_cell (b : t) (x y : Z) (k : Kind) : result t :=
  row ← Py.getitem (grid b) y;
  row' ← Py.setitem row x (Some k);
  g' ← Py.setitem (grid b) y row';
  Ok (with_grid b g').

Fixpoint place_loop (b : t) (k : Kind) (bs : list (Z * Z)) : result t :=
  match bs with
  | [] => Ok b
  | (x, y) :: rest =>
      b' ← (if inside b x y then set_cell b x y k else Ok b);
      place_loop b' k rest
  end.

Definition place (b : t) (p : Piece.t) : result t :=
  place_loop b (Piece.kind p) (Piece.blocks p).

(** [all(cell is not None for cell in row)] *)
Definition row_full (row : list (option Kind)) : bool :=
  forallb (λ cell, bool_decide (cell ≠ None)) row.

(** First loop of [clear_lines]: the state is [(lines_cleared, new_grid)]. *)
Definition scan_rows (g : list (list (option Kind)))
  : Z * list (list (option Kind)) :=
  foldl (λ '(lines_cleared, new_grid) row,
           if row_full row then (lines_cleared + 1, new_grid)
           else (lines_cleared, new_grid ++ [row]))
        (0, []) g.

(** Second loop: [new_grid.insert(0, [None] * self.width)], [n] times. *)
Definition insert_rows (w : Z) (n : Z) (new_grid : list (list (option Kind)))
  : list (list (option Kind)) :=
  foldl (λ g _, replicate (Z.to_nat w) None :: g) new_grid (Py.range n).

Definition clear_lines (b : t) : Z * t :=
  let '(lines_cleared, new_grid) := scan_rows (grid b) in
  (lines_cleared, with_grid b (insert_rows (width b) lines_cleared new_grid)).

Definition game_over_loop (b : t) : list Z → result bool :=
  fix go (ys : list Z) : result bool :=
    match ys with
    | [] => Ok false
    | y :: rest =>
        a ← Py.any (λ x, row ← Py.getitem (grid b) y;
                         cell ← Py.getitem row x;
                         Ok (bool_decide (cell ≠ None)))
                   (Py.range (width b));
        if a : bool then Ok true else go rest
    end.

Definition game_over (b : t) : result bool :=
  game_over_loop b (Py.range (hidden b)).

(** The shape of the grid that [__init__] builds: [height + hidden] rows
    of [width] cells (none for a negative count, as [range] yields
    nothing then). *)
Definition well_formed (b : t) : Prop :=
  length (grid b) = Z.to_nat (height b + hidden b) ∧
  Forall (λ row, length row = Z.to_nat (width b)) (grid b).

(** The number of rows of the grid, [len(self.grid)]. *)
Definition rows (b : t) : Z := Z.of_nat (length (grid b)).

(** The content of the cell in column [x] of row [y], if the grid has it. *)
Definition cell (b : t) (x y : nat) : option (option Kind) :=
  row ← grid b !! y; row !! x.

(** A block is free when it lies on the board and its cell holds no kind. *)
Definition free (b : t) (xy : Z * Z) : Prop :=
  (0 ≤ xy.1 < width b ∧ 0 ≤ xy.2 < height b + hidden b) ∧
  cell b (Z.to_nat xy.1) (Z.to_nat xy.2) = Some None.

(** What a placement may change: nothing but the grid. *)
Definition same_frame (b b' : t) : Prop :=
  width b' = width b ∧ height b' = height b ∧ hidden b' = hidden b.

(** A row in which every cell is occupied. *)
Definition full (row : list (option Kind)) : Prop := Forall is_Some row.

#[global] Instance full_dec row : Decision (full row).
Proof. unfold full. apply _. Defined.

(** Sequences of the two mutating operations of a board. *)
Inductive op : Type :=
| Place (p : Piece.t)
| ClearLines.

Definition step (o : op) (b : t) : result t :=
  match o with
  | Place p => place b p
  | ClearLines => Ok (clear_lines b).2
  end.

Fixpoint run (os : list op) (b : t) : result t :=
  match os with
  | [] => Ok b
  | o :: rest => b' ← step o b; run rest b'
  end.

End Board.

(** ** TetrisGame *)

Module TetrisGame.

(** The key codes of [handle_input]: the values of [curses.KEY_DOWN],
    [curses.KEY_LEFT] and [curses.KEY_RIGHT], and of [ord] at the letters. *)
Definition KEY_DOWN : Z := 258.
Definition KEY_LEFT : Z := 260.
Definition KEY_RIGHT : Z := 261.
Definition ord_a : Z := 97.
Definition ord_d : Z := 100.
Definition ord_z : Z := 122.
Definition ord_Z : Z := 90.
Definition ord_x : Z := 120.
Definition ord_X : Z := 88.
Definition ord_space : Z := 32.
Definition ord_p : Z := 112.
Definition ord_P : Z := 80.
Definition ord_q : Z := 113.
Definition ord_Q : Z := 81.

(** The rotation kicks tried by [rotate_current], in order. *)
Definition KICKS : list Z := [0; -1; 1; -2; 2].

Section Engine.

(** The floats; the state of the global random generator, and
    [random.shuffle] on a list of kinds: it returns the shuffled list and
    the next state. *)
Context {F : Float} {rng : Type}.
Variable shuffle : rng → list Kind → list Kind * rng.

(** [level_to_interval]: [max(0.05, base * (0.85**level))] with
    [base = 1.0]. *)
Definition level_to_interval (level : Z) : result float :=
  let base := lit_1_0 in
  p ← float_pow lit_0_85 level;
  Ok (float_max lit_0_05 (float_mul base p)).

(** The fields of a [TetrisGame] that the engine reads and writes
    ([stdscr] belongs to the drawing), with the state of the generator of
    module [random], which is global in Python, as the field [random]. *)
Record t : Type := mk {
  board : Board.t;
  score : Z;
  level : Z;
  lines : Z;
  bag : list Kind;
  next_piece : option Kind;
  current : option Piece.t;
  lock_delay : float;
  drop_interval : float;
  last_drop_time : float;
  gameover : bool;
  paused : bool;
  random : rng
}.

Definition set_board (s : t) (b : Board.t) : t :=
  mk b (score s) (level s) (lines s) (bag s) (next_piece s) (current s)
     (lock_delay s) (drop_interval s) (last_drop_time s) (gameover s)
     (paused s) (random s).
Definition set_score (s : t) (v : Z) : t :=
  mk (board s) v (level s) (lines s) (bag s) (next_piece s) (current s)
     (lock_delay s) (drop_interval s) (last_drop_time s) (gameover s)
     (paused s) (random s).
Definition set_level (s : t) (v : Z) : t :=
  mk (board s) (score s) v (lines s) (bag s) (next_piece s) (current s)
     (lock_delay s) (drop_interval s) (last_drop_time s) (gameover s)
     (paused s) (random s).
Definition set_lines (s : t) (v : Z) : t :=
  mk (board s) (score s) (level s) v (bag s) (next_piece s) (current s)
     (lock_delay s) (drop_interval s) (last_drop_time s) (gameover s)
     (paused s) (random s).
Definition set_bag (s : t) (v : list Kind) : t :=
  mk (board s) (score s) (level s) (lines s) v (next_piece s) (current s)
     (lock_delay s) (drop_interval s) (last_drop_time s) (gameover s)
     (paused s) (random s).
Definition set_next_piece (s : t) (v : option Kind) : t :=
  mk (board s) (score s) (level s) (lines s) (bag s) v (current s)
     (lock_delay s) (drop_interval s) (last_drop_time s) (gameover s)
     (paused s) (random s).
Definition set_current (s : t) (v : option Piece.t) : t :=
  mk (board s) (score s) (level s) (lines s) (bag s) (next_piece s) v
     (lock_delay s) (drop_interval s) (last_drop_time s) (gameover s)
     (paused s) (random s).
Definition set_drop_interval (s : t) (v : float) : t :=
  mk (board s) (score s) (level s) (lines s) (bag s) (next_piece s)
     (current s) (lock_delay s) v (last_drop_time s) (gameover s)
     (paused s) (random s).
Definition set_last_drop_time (s : t) (v : float) : t :=
  mk (board s) (score s) (level s) (lines s) (bag s) (next_piece s)
     (current s) (lock_delay s) (drop_interval s) v (gameover s)
     (paused s) (random s).
Definition set_gameover (s : t) (v : bool) : t :=
  mk (board s) (score s) (level s) (lines s) (bag s) (next_piece s)
     (current s) (lock_delay s) (drop_interval s) (last_drop_time s) v
     (paused s) (random s).
Definition set_paused (s : t) (v : bool) : t :=
  mk (board s) (score s) (level s) (lines s) (bag s) (next_piece s)
     (current s) (lock_delay s) (drop_interval s) (last_drop_time s)
     (gameover s) v (random s).
Definition set_random (s : t) (v : rng) : t :=
  mk (board s) (score s) (level s) (lines s) (bag s) (next_piece s)
     (current s) (lock_delay s) (drop_interval s) (last_drop_time s)
     (gameover s) (paused s) v.

Definition refill_bag (s : t) : t :=
  let '(pieces, g) := shuffle (random s) TETROMINOES_keys in
  set_random (set_bag s (bag s ++ pieces)) g.

(** [self.bag.pop(0)] raises [IndexError] on an empty list. *)
Definition next_from_bag (s : t) : result (Kind * t) :=
  let s1 := if bool_decide (bag s = []) then refill_bag s else s in
  match bag s1 with
  | [] => Raise IndexError
  | k :: rest => Ok (k, set_bag s1 rest)
  end.

Definition spawn_next (s : t) : result t :=
  '(kind, s1) ←
    match next_piece s with
    | None => '(k, s') ← next_from_bag s; Ok (k, set_next_piece s' (Some k))
    | Some k => Ok (k, s)
    end;
  '(nk, s2) ← next_from_bag s1;
  let s3 := set_next_piece s2 (Some nk) in
  let piece := Piece.mk kind 0 (Board.width (board s3) `div` 2 - 2) 0 in
  let s4 := set_current s3 (Some piece) in
  v ← Board.valid (board s4) piece;
  if negb v then Ok (set_gameover s4 true) else Ok s4.

(** The kind that [spawn_next] spawns, the queued kind or, when none is
    queued, the first draw; and the piece it builds of a kind. *)
Definition spawn_kind (s : t) : result Kind :=
  match next_piece s with
  | Some k => Ok k
  | None => '(k, _) ← next_from_bag s; Ok k
  end.

Definition spawn_piece (b : Board.t) (kind : Kind) : Piece.t :=
  Piece.mk kind 0 (Board.width b `div` 2 - 2) 0.

(** The body of the loop of [rotate_current] over the remaining kicks. *)
Fixpoint kick_loop (s : t) (new_piece : Piece.t) (dxs : list Z) : result t :=
  match dxs with
  | [] => Ok s
  | dx :: rest =>
      let candidate :=
        Piece.mk (Piece.kind new_piece) (Piece.rotation new_piece)
                 (Piece.x new_piece + dx) (Piece.y new_piece) in
      v ← Board.valid (board s) candidate;
      if v : bool then Ok (set_current s (Some candidate))
      else kick_loop s new_piece rest
  end.

Definition rotate_current (delta : Z) (s : t) : result t :=
  match current s with
  | None => Ok s
  | Some cur => kick_loop s (Piece.rotated cur delta) KICKS
  end.

Definition move_current (dx dy : Z) (s : t) : result (bool * t) :=
  match current s with
  | None => Ok (false, s)
  | Some cur =>
      let moved :=
        Piece.mk (Piece.kind cur) (Piece.rotation cur)
                 (Piece.x cur + dx) (Piece.y cur + dy) in
      v ← Board.valid (board s) moved;
      if v : bool then Ok (true, set_current s (Some moved))
      else Ok (false, s)
  end.

Definition soft_drop (s : t) : result (bool * t) :=
  '(moved, s1) ← move_current 0 1 s;
  if moved : bool then Ok (moved, set_score s1 (score s1 + 1))
  else Ok (moved, s1).

(** The score, line and level bookkeeping of [lock_piece], after
    [cleared] rows were removed; it raises what [level_to_interval] raises
    at the new level. *)
Definition award (cleared : Z) (s : t) : result t :=
  if cleared =? 0 then Ok s
  else
    let s1 :=
      if cleared =? 1 then set_score s (score s + 40 * (level s + 1))
      else if cleared =? 2 then set_score s (score s + 100 * (level s + 1))
      else if cleared =? 3 then set_score s (score s + 300 * (level s + 1))
      else if cleared >=? 4 then set_score s (score s + 1200 * (level s + 1))
      else s in
    let s2 := set_lines s1 (lines s1 + cleared) in
    let new_level := lines s2 `div` 10 in
    if bool_decide (new_level ≠ level s2)
    then
      interval ← level_to_interval new_level;
      Ok (set_drop_interval (set_level s2 new_level) interval)
    else Ok s2.

(** [self.board.place(self.current)] raises [AttributeError] when
    [self.current] is [None]. *)
Definition lock_piece (s : t) : result t :=
  match current s with
  | None => Raise AttributeError
  | Some cur =>
      b1 ← Board.place (board s) cur;
      let '(cleared, b2) := Board.clear_lines b1 in
      s1 ← award cleared (set_board s b2);
      spawn_next s1
  end.

(** [tick], with the value of [time.time()] as the argument [now]. *)
Definition tick (now : float) (s : t) : result t :=
  if paused s || gameover s then Ok (set_last_drop_time s now)
  else if float_ge (float_sub now (last_drop_time s)) (drop_interval s) then
    '(moved, s1) ← move_current 0 1 s;
    s2 ← (if negb moved then lock_piece s1 else Ok s1);
    Ok (set_last_drop_time s2 now)
  else Ok s.

(** The loop of [hard_drop], [while self.move_current(0, 1): pass].  Each
    turn spends one unit of [fuel]; [None] is a loop cut short for lack of
    it (lemma [drop_loop_fuel]: more fuel than the grid has rows is enough). *)
Fixpoint drop_loop (fuel : nat) (s : t) : option (result t) :=
  match fuel with
  | O => None
  | S fuel' =>
      match move_current 0 1 s with
      | Ok (true, s1) => drop_loop fuel' s1
      | Ok (false, s1) => Some (Ok s1)
      | Raise e => Some (Raise e)
      end
  end.

Definition hard_drop (fuel : nat) (s : t) : option (result t) :=
  match current s with
  | None => Some (Ok s)
  | Some _ =>
      match drop_loop fuel s with
      | Some r => Some (s1 ← r; lock_piece s1)
      | None => None
      end
  end.

(** [handle_input], with the value of [self.stdscr.getch()] (-1 when it
    raised or no key is pending) as the argument [key]. *)
Definition handle_input (fuel : nat) (key : Z) (s : t) : option (result t) :=
  if key =? -1 then Some (Ok s)
  else if (key =? KEY_LEFT) || (key =? ord_a) then
    Some ('(_, s') ← move_current (-1) 0 s; Ok s')
  else if (key =? KEY_RIGHT) || (key =? ord_d) then
    Some ('(_, s') ← move_current 1 0 s; Ok s')
  else if key =? KEY_DOWN then
    Some ('(_, s') ← soft_drop s; Ok s')
  else if (key =? ord_z) || (key =? ord_Z) then Some (rotate_current (-1) s)
  else if (key =? ord_x) || (key =? ord_X) then Some (rotate_current 1 s)
  else if key =? ord_space then hard_drop fuel s
  else if (key =? ord_p) || (key =? ord_P) then
    Some (Ok (set_paused s (negb (paused s))))
  else if (key =? ord_q) || (key =? ord_Q) then
    Some (Ok (set_gameover s true))
  else Some (Ok s).

(** [TetrisGame.__init__], from the generator state [g] at time [now];
    [init_curses] is the outcome of [self.init_curses()], which acts on the
    terminal only. *)
Definition init (init_curses : result ()) (g : rng) (now : float) : result t :=
  let level := 0 in
  interval ← level_to_interval level;
  _ ← init_curses;
  spawn_next
    (mk (Board.init Board.BOARD_WIDTH Board.BOARD_HEIGHT Board.HIDDEN_ROWS)
        0 level 0 [] None None lit_0_5 interval now false false g).

(** What a draw leaves alone: all but the bag and the generator. *)
Definition draw_frame (s s' : t) : Prop :=
  board s' = board s ∧ score s' = score s ∧ level s' = level s ∧
  lines s' = lines s ∧ next_piece s' = next_piece s ∧
  current s' = current s ∧ lock_delay s' = lock_delay s ∧
  drop_interval s' = drop_interval s ∧
  last_drop_time s' = last_drop_time s ∧
  gameover s' = gameover s ∧ paused s' = paused s.

(** What a spawn leaves alone: the board, the counters and the timing. *)
Definition spawn_frame (s s' : t) : Prop :=
  board s' = board s ∧ score s' = score s ∧ level s' = level s ∧
  lines s' = lines s ∧ lock_delay s' = lock_delay s ∧
  drop_interval s' = drop_interval s ∧
  last_drop_time s' = last_drop_time s ∧ paused s' = paused s.

(** [n] consecutive draws from the bag, in the order drawn. *)
Fixpoint draws (n : nat) (s : t) : result (list Kind * t) :=
  match n with
  | O => Ok ([], s)
  | S n' =>
      '(k, s1) ← next_from_bag s;
      '(ks, s2) ← draws n' s1;
      Ok (k :: ks, s2)
  end.

(** Sequences of the engine operations that act on the game. *)
Inductive op : Type :=
| Move (dx dy : Z)
| Rotate (delta : Z)
| Lock
| Tick (now : float).

Definition step (o : op) (s : t) : result t :=
  match o with
  | Move dx dy => '(_, s') ← move_current dx dy s; Ok s'
  | Rotate delta => rotate_current delta s
  | Lock => lock_piece s
  | Tick now => tick now s
  end.

Fixpoint run (os : list op) (s : t) : result t :=
  match os with
  | [] => Ok s
  | o :: rest => s' ← step o s; run rest s'
  end.

(** What reaches the game from outside: a call of [handle_input] that
    reads [key], or a call of [tick] that reads the clock at [now]. *)
Inductive event : Type :=
| Key (key : Z)
| Clock (now : float).

Definition react (fuel : nat) (ev : event) (s : t) : option (result t) :=
  match ev with
  | Key key => handle_input fuel key s
  | Clock now => Some (tick now s)
  end.

(** The game after a sequence of such calls, up to the first exception. *)
Fixpoint play (fuel : nat) (events : list event) (s : t)
  : option (result t) :=
  match events with
  | [] => Some (Ok s)
  | ev :: rest =>
      match react fuel ev s with
      | Some (Ok s1) => play fuel rest s1
      | other => other
      end
  end.

(** [n] ticks at the given clock readings. *)
Definition ticks (nows : list float) (s : t) : result t :=
  run (map Tick nows) s.

End Engine.

Arguments t : clear implicits.
Arguments op : clear implicits.
Arguments event : clear implicits.

End TetrisGame.

(** ** Predicates of the properties *)

Module Invariants.
Import Board TetrisGame.

(** No row of the board is full. *)
Definition no_full_row (b : Board.t) : Prop :=
  Forall (λ row, ¬ full row) (grid b).

(** The piece at the origin [(x, y + n)], otherwise as [p]. *)
Definition lowered (p : Piece.t) (n : Z) : Piece.t :=
  Piece.mk (Piece.kind p) (Piece.rotation p) (Piece.x p) (Piece.y p + n).

(** What holds of a game in play: the board has the standard dimensions,
    the constructed shape and no full row; there are a current piece, which
    the board validates unless the game is over, and a queued kind; the
    counters are not negative, the level is the one of the line count and
    the drop interval the one that [level_to_interval] returned for it; the
    bag holds no kind twice. *)
Definition playable `{F : Float} {rng} (s : TetrisGame.t F rng) : Prop :=
  width (board s) = BOARD_WIDTH ∧ height (board s) = BOARD_HEIGHT ∧
  hidden (board s) = HIDDEN_ROWS ∧
  well_formed (board s) ∧ no_full_row (board s) ∧
  (∃ cur, current s = Some cur ∧
          (gameover s = false → valid (board s) cur = Ok true)) ∧
  is_Some (next_piece s) ∧
  0 ≤ score s ∧ 0 ≤ lines s ∧ level s = lines s `div` 10 ∧
  level_to_interval (level s) = Ok (drop_interval s) ∧
  NoDup (bag s).

End Invariants.

(** ** Sample data: a deterministic entropy source, boards and games *)

Module Samples.

(** A deterministic stand-in for [random.shuffle]: the generator state is
    a counter and the list is rotated by it. *)
Definition rot_shuffle (g : nat) (l : list Kind) : list Kind * nat :=
  (rotate g l, S g).

(** The sample games need some numbers for their clock and their drop
    interval.  The theorems hold of every implementation of [Float]; the
    samples take the rationals, with a power that raises [OverflowError]
    at the exponents at which [0.85**level] overflows a double. *)
#[export] Instance rationals : Float := {|
  float := Q;
  lit_0_05 := 0.05%Q;
  lit_0_5 := 0.5%Q;
  lit_0_85 := 0.85%Q;
  lit_1_0 := 1%Q;
  float_pow x n := if n <? -4367 then Raise OverflowError else Ok (x ^ n)%Q;
  float_mul := Qmult;
  float_sub := Qminus;
  float_gt a b := negb (Qle_bool a b);
  float_ge a b := Qle_bool b a
|}.

(** The drop interval of level [lvl] in these numbers. *)
Definition interval_at (lvl : Z) : Q :=
  float_max lit_0_05 (float_mul lit_1_0 (0.85 ^ lvl)%Q).

Definition empty_board : Board.t :=
  Board.init Board.BOARD_WIDTH Board.BOARD_HEIGHT Board.HIDDEN_ROWS.

Definition game (b : Board.t) (cur : option Piece.t) (nxt : option Kind)
    (bag : list Kind) (over paused : bool) : TetrisGame.t rationals nat :=
  TetrisGame.mk b 0 0 0 bag nxt cur 0.5%Q (interval_at 0) 0%Q over paused
                0%nat.

(** The O piece where [spawn_next] puts it on the standard board. *)
Definition O_spawn : Piece.t := Piece.mk KO 0 3 0.

(** A row of the standard width with every cell occupied. *)
Definition full_row : list (option Kind) := replicate 10 (Some KI).

(** A row with the two leftmost cells occupied. *)
Definition left2_row : list (option Kind) :=
  [Some KO; Some KO] ++ replicate 8 None.

Definition empty_row : list (option Kind) := replicate 10 None.

(** The standard board with columns 0 and 1 filled up to the visible top
    (rows 4..23). *)
Definition left_stack : Board.t :=
  Board.mk 10 20 4 (replicate 4 empty_row ++ replicate 20 left2_row).

(** The standard board whose bottom [n] rows lack only columns 4 and 5. *)
Definition gap_row : list (option Kind) :=
  replicate 4 (Some KI) ++ [None; None] ++ replicate 4 (Some KI).
Definition gap_board (n : nat) : Board.t :=
  Board.mk 10 20 4 (replicate (24 - n) empty_row ++ replicate n gap_row).

(** The standard board with columns 4 and 5 filled up to the visible top
    (rows 4..23), as a stack of O pieces dropped where they spawn. *)
Definition mid2_row : list (option Kind) :=
  replicate 4 None ++ [Some KO; Some KO] ++ replicate 4 None.
Definition center_stack : Board.t :=
  Board.mk 10 20 4 (replicate 4 empty_row ++ replicate 20 mid2_row).

(** The same stack grown through the hidden rows to the top of the grid,
    and a game about to spawn an O piece onto it. *)
Definition top_stack : Board.t := Board.mk 10 20 4 (replicate 24 mid2_row).
Definition blocked_game : TetrisGame.t rationals nat :=
  game top_stack None (Some KO) [KI; KJ] false false.

(** A game that has drawn nothing yet. *)
Definition fresh_game : TetrisGame.t rationals nat :=
  game empty_board None None [] false false.

(** An O piece resting on the centre stack, in the hidden rows 2 and 3. *)
Definition lockout_game : TetrisGame.t rationals nat :=
  game center_stack (Some (Piece.mk KO 0 3 2)) (Some KT) [KI; KJ] false false.

(** A paused game with the O piece where it spawned on an empty board. *)
Definition paused_game : TetrisGame.t rationals nat :=
  game empty_board (Some O_spawn) (Some KT) [KI; KJ] false true.

(** A game with an O piece over the gap of two almost full bottom rows,
    running or already over. *)
Definition gap_game (over : bool) : TetrisGame.t rationals nat :=
  game (gap_board 2) (Some (Piece.mk KO 0 3 22)) (Some KT) [KI; KJ] over false.

(** A T piece lying on a single settled block, which blocks its clockwise
    rotation in place but at neither side. *)
Definition kick_board : Board.t :=
  Board.mk 10 20 4
    (replicate 12 empty_row
     ++ [replicate 4 None ++ [Some KZ] ++ replicate 5 None]
     ++ replicate 11 empty_row).
Definition kick_game : TetrisGame.t rationals nat :=
  game kick_board (Some (Piece.mk KT 0 3 10)) (Some KT) [KI; KJ] false false.

(** An upright I piece against the right wall. *)
Definition wall_game : TetrisGame.t rationals nat :=
  game empty_board (Some (Piece.mk KI 1 7 10)) (Some KT) [KI; KJ] false false.

(** The standard board whose bottom [n] rows lack only column 9, and a
    game at level [lvl] with an upright I piece at the bottom of that
    column. *)
Definition well_row : list (option Kind) := replicate 9 (Some KI) ++ [None].
Definition well_board (n : nat) : Board.t :=
  Board.mk 10 20 4 (replicate (24 - n) empty_row ++ replicate n well_row).
Definition well_game (n : nat) (lvl : Z) : TetrisGame.t rationals nat :=
  TetrisGame.mk (well_board n) 0 lvl (10 * lvl) [KI; KJ] (Some KT)
                (Some (Piece.mk KI 1 7 20)) 0.5%Q (interval_at lvl) 0%Q
                false false 0%nat.

(** The game of [well_game 1 0] with a line count far below zero, from
    which a cleared row takes the level out of the range of [0.85**level]. *)
Definition overflow_game : TetrisGame.t rationals nat :=
  TetrisGame.mk (well_board 1) 0 0 (-44000) [KI; KJ] (Some KT)
                (Some (Piece.mk KI 1 7 20)) 0.5%Q (interval_at 0) 0%Q
                false false 0%nat.

(** A board of four rows: full, full, partial, empty, from the top. *)
Definition four_rows : Board.t :=
  Board.mk 10 4 0 [full_row; full_row; left2_row; empty_row].

End Samples.

(** * Properties *)

(** ** Subscripts *)

Module PyFacts.
Import Py.

Lemma bind_Ok {A B} (m : result A) (f : A → result B) (b : B) :
  m ≫= f = Ok b ↔ ∃ a, m = Ok a ∧ f a = Ok b.
Proof.
  destruct m as [a|e]; simpl; split.
  - eauto.
  - intros (a' & [= <-] & H); done.
  - done.
  - intros (a' & [=] & _).
Qed.

Lemma bind_Ok_l {A B} (a : A) (f : A → result B) : Ok a ≫= f = f a.
Proof. reflexivity. Qed.

Lemma index_in_range {A} (l : list A) (i : Z) :
  0 ≤ i < Z.of_nat (length l) → index l i = Some (Z.to_nat i).
Proof.
  intros Hi. unfold index.
  destruct (Z.ltb_spec i 0); [lia|].
  destruct (Z.leb_spec 0 i); [|lia].
  destruct (Z.ltb_spec i (Z.of_nat (length l))); [done|lia].
Qed.

Lemma getitem_in_range {A} (l : list A) (i : Z) :
  0 ≤ i < Z.of_nat (length l) →
  ∃ a, l !! Z.to_nat i = Some a ∧ getitem l i = Ok a.
Proof.
  intros Hi. unfold getitem. rewrite index_in_range by done.
  destruct (lookup_lt_is_Some_2 l (Z.to_nat i)) as [a Ha]; [lia|].
  exists a. by rewrite Ha.
Qed.

Lemma setitem_in_range {A} (l : list A) (i : Z) (a : A) :
  0 ≤ i < Z.of_nat (length l) →
  setitem l i a = Ok (<[Z.to_nat i := a]> l).
Proof. intros Hi. unfold setitem. by rewrite index_in_range. Qed.

Lemma length_range (n : Z) : length (range n) = Z.to_nat n.
Proof. apply length_seqZ. Qed.

End PyFacts.

(** ** Pieces *)

Module PieceFacts.

Lemma rotation_state_in_range (p : Piece.t) :
  is_Some (TETROMINOES (Piece.kind p) !! Z.to_nat (Piece.rotation p `mod` 4)).
Proof.
  apply lookup_lt_is_Some_2.
  assert (0 ≤ Piece.rotation p `mod` 4 < 4) by (apply Z.mod_pos_bound; lia).
  destruct (Piece.kind p); simpl; lia.
Qed.

Lemma length_state (p : Piece.t) : length (Piece.state p) = 4%nat.
Proof.
  unfold Piece.state.
  assert (H : 0 ≤ Piece.rotation p `mod` 4 < 4) by (apply Z.mod_pos_bound; lia).
  assert (Hn : (Z.to_nat (Piece.rotation p `mod` 4) < 4)%nat) by lia.
  revert Hn. generalize (Z.to_nat (Piece.rotation p `mod` 4)). intros n Hn.
  destruct (Piece.kind p);
    do 4 (destruct n as [|n]; [reflexivity|]); lia.
Qed.

Lemma length_blocks (p : Piece.t) : length (Piece.blocks p) = 4%nat.
Proof. unfold Piece.blocks. rewrite length_map. apply length_state. Qed.

End PieceFacts.

(** ** Board: collision and placement *)

Module BoardFacts.
Import Py PyFacts Board.

Lemma inside_spec (b : t) (x y : Z) :
  inside b x y = true ↔
  0 ≤ x < width b ∧ 0 ≤ y < height b + hidden b.
Proof. unfold inside. rewrite !andb_true_iff. lia. Qed.

Lemma inside_cells (b : t) (x y : Z) :
  well_formed b → inside b x y = true →
  ∃ row c, grid b !! Z.to_nat y = Some row ∧ row !! Z.to_nat x = Some c ∧
           getitem (grid b) y = Ok row ∧ getitem row x = Ok c.
Proof.
  intros [Hlen Hrows] [Hx Hy]%inside_spec.
  destruct (getitem_in_range (grid b) y) as (row & Hrow & Hget); [lia|].
  assert (Hw : length row = Z.to_nat (width b)).
  { eapply Forall_lookup_1 in Hrows; eauto. }
  destruct (getitem_in_range row x) as (c & Hc & Hgetc); [lia|].
  eauto 10.
Qed.

Lemma cell_inside (b : t) (x y : nat) :
  well_formed b →
  is_Some (cell b x y) ↔ inside b (Z.of_nat x) (Z.of_nat y) = true.
Proof.
  intros [Hlen Hrows]. rewrite inside_spec. unfold cell. split.
  - intros [c Hc]. destruct (grid b !! y) as [row|] eqn:Hrow; [|done].
    simpl in Hc. apply lookup_lt_Some in Hc.
    pose proof (lookup_lt_Some _ _ _ Hrow).
    eapply Forall_lookup_1 in Hrows; eauto. lia.
  - intros [Hx Hy].
    destruct (lookup_lt_is_Some_2 (grid b) y) as [row Hrow]; [lia|].
    rewrite Hrow. simpl. apply lookup_lt_is_Some_2.
    eapply Forall_lookup_1 in Hrows; eauto. lia.
Qed.

Lemma empty_outside (b : t) (x y : Z) :
  inside b x y = false → empty b x y = Ok false.
Proof. intros H. unfold empty. by rewrite H. Qed.

Lemma empty_inside (b : t) (x y : Z) :
  well_formed b → inside b x y = true →
  ∃ c, cell b (Z.to_nat x) (Z.to_nat y) = Some c ∧
       empty b x y = Ok (bool_decide (c = None)).
Proof.
  intros Hwf Hin.
  destruct (inside_cells b x y Hwf Hin) as (row & c & Hrow & Hc & Hg1 & Hg2).
  exists c. unfold cell, empty. rewrite Hin, Hrow, Hg1. simpl.
  by rewrite Hg2.
Qed.

Lemma valid_loop_spec (b : t) (bs : list (Z * Z)) :
  well_formed b →
  ∃ v, valid_loop b bs = Ok v ∧ (v = true ↔ Forall (free b) bs).
Proof.
  intros Hwf. induction bs as [|[x y] rest (v & Hv & IH)].
  - exists true. split; [done|]. split; [constructor|done].
  - simpl. destruct (inside b x y) eqn:Hin; simpl.
    + destruct (empty_inside b x y Hwf Hin) as (c & Hc & He).
      rewrite He. simpl. destruct c as [k|]; simpl.
      * exists false. split; [done|]. split; [done|].
        intros [[_ Hfree] _]%Forall_cons. simpl in Hfree.
        rewrite Hc in Hfree. discriminate.
      * exists v. split; [done|]. rewrite IH, Forall_cons.
        unfold free at 2. simpl. apply inside_spec in Hin. tauto.
    + exists false. split; [done|]. split; [done|].
      intros [[Hb _] _]%Forall_cons. simpl in Hb.
      apply inside_spec in Hb. congruence.
Qed.

End BoardFacts.

Module PlaceFacts.
Import Py PyFacts Board BoardFacts.

Lemma set_cell_spec (b : t) (x y : Z) (k : Kind) :
  well_formed b → inside b x y = true →
  ∃ b', set_cell b x y k = Ok b' ∧ well_formed b' ∧ same_frame b b' ∧
        ∀ i j, cell b' i j =
               if bool_decide (i = Z.to_nat x ∧ j = Z.to_nat y)
               then Some (Some k) else cell b i j.
Proof.
  intros Hwf Hin.
  destruct (inside_cells b x y Hwf Hin) as (row & c & Hrow & Hc & Hg1 & _).
  destruct Hwf as [Hlen Hrows].
  apply inside_spec in Hin as [Hx Hy].
  assert (Hw : length row = Z.to_nat (width b)).
  { eapply Forall_lookup_1 in Hrows; eauto. }
  unfold set_cell. rewrite Hg1. simpl.
  rewrite setitem_in_range by lia. simpl.
  rewrite setitem_in_range by lia. simpl.
  eexists. split; [done|]. split; [|split; [done|]].
  - split; simpl.
    + by rewrite length_insert.
    + apply Forall_insert; [done|]. by rewrite length_insert.
  - intros i j. unfold cell. simpl.
    destruct (decide (j = Z.to_nat y)) as [->|Hj].
    + rewrite list_lookup_insert_eq by lia. simpl.
      destruct (decide (i = Z.to_nat x)) as [->|Hi].
      * rewrite bool_decide_true by done.
        apply list_lookup_insert_eq. lia.
      * rewrite bool_decide_false by tauto.
        rewrite list_lookup_insert_ne by done. by rewrite Hrow.
    + rewrite bool_decide_false by tauto.
      by rewrite list_lookup_insert_ne.
Qed.

Lemma place_loop_spec (k : Kind) (bs : list (Z * Z)) (b : t) :
  well_formed b →
  ∃ b', place_loop b k bs = Ok b' ∧ well_formed b' ∧ same_frame b b' ∧
        ∀ i j, cell b' i j =
               c ← cell b i j;
               Some (if bool_decide ((Z.of_nat i, Z.of_nat j) ∈ bs)
                     then Some k else c).
Proof.
  revert b. induction bs as [|[x y] rest IH]; intros b Hwf.
  - exists b. split; [done|]. split; [done|]. split; [done|].
    intros i j. by destruct (cell b i j).
  - simpl. destruct (inside b x y) eqn:Hin.
    + destruct (set_cell_spec b x y k Hwf Hin)
        as (b1 & -> & Hwf1 & (Hw1 & Hh1 & Hd1) & Hcell1). simpl.
      destruct (IH b1 Hwf1) as (b' & -> & Hwf' & (Hw' & Hh' & Hd') & Hcell').
      exists b'. split; [done|]. split; [done|].
      split; [unfold same_frame; by rewrite Hw', Hh', Hd'|].
      intros i j. rewrite Hcell', Hcell1.
      apply inside_spec in Hin as [Hx Hy].
      destruct (decide (i = Z.to_nat x ∧ j = Z.to_nat y)) as [[-> ->]|Hij].
      * rewrite (bool_decide_true (_ ∧ _)) by done. simpl.
        destruct (cell_inside b (Z.to_nat x) (Z.to_nat y) Hwf) as [_ [c ->]].
        { apply inside_spec. lia. }
        simpl. rewrite !Z2Nat.id by lia.
        rewrite (bool_decide_true (_ ∈ (x, y) :: rest))
          by (apply elem_of_cons; by left).
        by case_bool_decide.
      * rewrite (bool_decide_false (_ ∧ _)) by done.
        destruct (cell b i j) as [c|]; simpl; [|done].
        rewrite (bool_decide_ext ((Z.of_nat i, Z.of_nat j) ∈ rest)
                 ((Z.of_nat i, Z.of_nat j) ∈ (x, y) :: rest)); [done|].
        rewrite elem_of_cons.
        split; [tauto|]. intros [[= <- <-]|?]; [|done].
        exfalso. apply Hij. lia.
    + simpl. destruct (IH b Hwf) as (b' & -> & Hwf' & Hfr & Hcell').
      exists b'. split; [done|]. split; [done|]. split; [done|].
      intros i j. rewrite Hcell'.
      destruct (cell b i j) as [c|] eqn:Hc; simpl; [|done].
      rewrite (bool_decide_ext ((Z.of_nat i, Z.of_nat j) ∈ rest)
                 ((Z.of_nat i, Z.of_nat j) ∈ (x, y) :: rest)); [done|].
      rewrite elem_of_cons.
      split; [tauto|]. intros [[= <- <-]|?]; [|done].
      assert (Hs : is_Some (cell b i j)) by eauto.
      apply cell_inside in Hs; [|done]. congruence.
Qed.

End PlaceFacts.

Module Collision.
Import Py PyFacts Board BoardFacts PlaceFacts.

Lemma init_well_formed (w h d : Z) : well_formed (init w h d).
Proof.
  split; simpl.
  - by rewrite length_map, length_range.
  - apply Forall_map, Forall_forall. intros _ _. simpl.
    by rewrite length_map, length_range.
Qed.

(** C9.  On a board of the constructed shape: a piece has 4 cells;
    [valid] returns true exactly when each of them is within
    [0 <= x < width], [0 <= y < height + hidden] and holds no kind (and
    false otherwise); [empty] is false at every position out of bounds;
    [place] raises nothing for any piece, valid or not, keeps the
    dimensions and the shape of the grid, and changes no cell but the
    piece's cells that the grid has, which receive the piece's kind. *)
Theorem collision_soundness (b : Board.t) (p : Piece.t) :
  well_formed b →
  length (Piece.blocks p) = 4%nat ∧
  (∃ v, valid b p = Ok v ∧
        (v = true ↔
         ∀ x y, (x, y) ∈ Piece.blocks p →
                (0 ≤ x < width b ∧ 0 ≤ y < height b + hidden b) ∧
                cell b (Z.to_nat x) (Z.to_nat y) = Some None)) ∧
  (∀ x y, ¬ (0 ≤ x < width b ∧ 0 ≤ y < height b + hidden b) →
          empty b x y = Ok false) ∧
  (∃ b', place b p = Ok b' ∧ well_formed b' ∧ same_frame b b' ∧
         ∀ i j, cell b' i j =
                c ← cell b i j;
                Some (if bool_decide ((Z.of_nat i, Z.of_nat j) ∈ Piece.blocks p)
                      then Some (Piece.kind p) else c)).
Proof.
  intros Hwf. split; [apply PieceFacts.length_blocks|]. split; [|split].
  - destruct (valid_loop_spec b (Piece.blocks p) Hwf) as (v & Hv & Hiff).
    exists v. split; [done|]. rewrite Hiff, Forall_forall.
    split.
    + intros H x y Hxy. apply (H (x, y) Hxy).
    + intros H [x y] Hxy. apply (H x y Hxy).
  - intros x y Hout. apply empty_outside.
    destruct (inside b x y) eqn:Hin; [|done].
    by apply inside_spec in Hin.
  - apply place_loop_spec, Hwf.
Qed.

Lemma collision_soundness_witness :
  well_formed Samples.left_stack ∧
  length (Piece.blocks Samples.O_spawn) = 4%nat ∧
  (∃ v, valid Samples.left_stack Samples.O_spawn = Ok v ∧
        (v = true ↔
         ∀ x y, (x, y) ∈ Piece.blocks Samples.O_spawn →
                (0 ≤ x < width Samples.left_stack ∧
                 0 ≤ y < height Samples.left_stack + hidden Samples.left_stack) ∧
                cell Samples.left_stack (Z.to_nat x) (Z.to_nat y) = Some None)) ∧
  (∀ x y, ¬ (0 ≤ x < width Samples.left_stack ∧
             0 ≤ y < height Samples.left_stack + hidden Samples.left_stack) →
          empty Samples.left_stack x y = Ok false) ∧
  (∃ b', place Samples.left_stack Samples.O_spawn = Ok b' ∧
         well_formed b' ∧ same_frame Samples.left_stack b' ∧
         ∀ i j, cell b' i j =
                c ← cell Samples.left_stack i j;
                Some (if bool_decide ((Z.of_nat i, Z.of_nat j)
                                      ∈ Piece.blocks Samples.O_spawn)
                      then Some (Piece.kind Samples.O_spawn) else c)).
Proof.
  assert (Hwf : well_formed Samples.left_stack).
  { split; [reflexivity|]. vm_compute. repeat constructor. }
  split; [exact Hwf|]. exact (collision_soundness _ _ Hwf).
Defined.

End Collision.

(** ** Board: line clearing and the shape of the grid *)

Module ClearFacts.
Import Py PyFacts Board BoardFacts PlaceFacts.

Lemma row_full_spec (row : list (option Kind)) :
  row_full row = true ↔ full row.
Proof.
  unfold row_full, full. rewrite forallb_forall, Forall_forall.
  split; intros H c Hc.
  - apply list_elem_of_In, H, bool_decide_eq_true in Hc.
    by destruct c; [eexists|].
  - apply list_elem_of_In, H in Hc as [k ->]. by apply bool_decide_eq_true.
Qed.

(** The first loop, from any state of its two accumulators. *)
Lemma scan_rows_from (g : list (list (option Kind))) (n : Z) acc :
  foldl (λ '(lines_cleared, new_grid) row,
           if row_full row then (lines_cleared + 1, new_grid)
           else (lines_cleared, new_grid ++ [row]))
        (n, acc) g
  = (n + Z.of_nat (length (filter full g)),
     acc ++ filter (λ row, ¬ full row) g).
Proof.
  revert n acc. induction g as [|row g IH]; intros n acc; simpl.
  - f_equal; [lia|]. by rewrite app_nil_r.
  - destruct (row_full row) eqn:Hfull.
    + apply row_full_spec in Hfull. rewrite IH.
      rewrite filter_cons_True by done.
      rewrite filter_cons_False by tauto.
      f_equal. simpl. lia.
    + assert (¬ full row) by (rewrite <- row_full_spec; congruence).
      rewrite IH. rewrite filter_cons_False by done.
      rewrite filter_cons_True by done.
      f_equal. by rewrite <- app_assoc.
Qed.

Lemma push_rows {A B} (r : A) (l : list B) (acc : list A) :
  foldl (λ g _, r :: g) acc l = replicate (length l) r ++ acc.
Proof.
  revert acc. induction l as [|a l IH]; intros acc; simpl; [done|].
  rewrite IH. change (r :: acc) with ([r] ++ acc).
  rewrite app_assoc, <- replicate_cons_app. done.
Qed.

Lemma clear_lines_spec (b : t) :
  clear_lines b =
    (Z.of_nat (length (filter full (grid b))),
     with_grid b
       (replicate (length (filter full (grid b)))
                  (replicate (Z.to_nat (width b)) None)
        ++ filter (λ row, ¬ full row) (grid b))).
Proof.
  unfold clear_lines, scan_rows. rewrite scan_rows_from. simpl.
  unfold insert_rows. rewrite push_rows, length_range.
  by rewrite Z.add_0_l, Nat2Z.id.
Qed.

Lemma length_filter_split {A} (P : A → Prop) `{∀ x, Decision (P x)}
    (l : list A) :
  (length (filter P l) + length (filter (λ x, ¬ P x) l))%nat = length l.
Proof.
  induction l as [|a l IH]; [done|].
  destruct (decide (P a)).
  - rewrite filter_cons_True, filter_cons_False by tauto. simpl. lia.
  - rewrite filter_cons_False, filter_cons_True by tauto. simpl. lia.
Qed.

Lemma rows_same_frame (b b' : t) :
  well_formed b → well_formed b' → same_frame b b' → rows b = rows b'.
Proof.
  intros [Hlen _] [Hlen' _] (_ & Hh & Hd). unfold rows.
  by rewrite Hlen, Hlen', Hh, Hd.
Qed.

Lemma clear_lines_well_formed (b : t) :
  well_formed b →
  well_formed (clear_lines b).2 ∧ same_frame b (clear_lines b).2.
Proof.
  intros [Hlen Hrows]. rewrite clear_lines_spec. simpl.
  split; [split; simpl|done].
  - rewrite length_app, length_replicate, length_filter_split. done.
  - apply Forall_app. split.
    + apply Forall_replicate. apply length_replicate.
    + apply Forall_forall. intros row [_ Hrow]%list_elem_of_filter.
      eapply Forall_forall in Hrows; eauto.
Qed.

(** C6.  [clear_lines] returns the number of rows in which every cell is
    occupied, and leaves the grid made of that many rows of [width] empty
    cells followed by the other rows, in their order. *)
Theorem clear_lines_correct (b : Board.t) :
  let removed := filter full (grid b) in
  let kept := filter (λ row, ¬ full row) (grid b) in
  let fresh := replicate (Z.to_nat (width b)) None in
  clear_lines b =
    (Z.of_nat (length removed),
     Board.mk (width b) (height b) (hidden b)
              (replicate (length removed) fresh ++ kept)).
Proof. intros. apply clear_lines_spec. Qed.

End ClearFacts.

Module Shape.
Import Py Board BoardFacts PlaceFacts ClearFacts.

Lemma step_well_formed (o : op) (b : t) :
  well_formed b →
  ∃ b', step o b = Ok b' ∧ well_formed b' ∧ same_frame b b'.
Proof.
  intros Hwf. destruct o as [p|]; simpl.
  - destruct (place_loop_spec (Piece.kind p) (Piece.blocks p) b Hwf)
      as (b' & Hp & Hwf' & Hfr & _).
    by exists b'.
  - eexists. split; [done|]. by apply clear_lines_well_formed.
Qed.

Lemma run_well_formed (os : list op) (b : t) :
  well_formed b →
  ∃ b', run os b = Ok b' ∧ well_formed b' ∧ same_frame b b'.
Proof.
  revert b. induction os as [|o os IH]; intros b Hwf; simpl.
  - by exists b.
  - destruct (step_well_formed o b Hwf) as (b1 & -> & Hwf1 & Hfr1). simpl.
    destruct (IH b1 Hwf1) as (b' & -> & Hwf' & Hfr').
    exists b'. split; [done|]. split; [done|].
    destruct Hfr1 as (? & ? & ?), Hfr' as (? & ? & ?).
    unfold same_frame. split_and!; congruence.
Qed.

(** C10.  From the board that [__init__] builds, every sequence of
    [place] and [clear_lines] runs without an exception and ends in a
    board of the same dimensions whose grid has [height + hidden] rows of
    [width] cells each (a negative count standing for none). *)
Theorem grid_shape_preserved (w h d : Z) (os : list Board.op) :
  ∃ b, run os (init w h d) = Ok b ∧
       width b = w ∧ height b = h ∧ hidden b = d ∧
       length (grid b) = Z.to_nat (h + d) ∧
       ∀ row, row ∈ grid b → length row = Z.to_nat w.
Proof.
  destruct (run_well_formed os (init w h d) (Collision.init_well_formed w h d))
    as (b & Hrun & [Hlen Hrows] & Hw & Hh & Hd).
  simpl in Hw, Hh, Hd.
  exists b. split; [done|]. split_and!; try done.
  - by rewrite Hlen, Hh, Hd.
  - intros row Hrow. eapply Forall_forall in Hrows; eauto. by rewrite Hrows, Hw.
Qed.

End Shape.

(** ** Board: the hidden rows *)

Module GameOverFacts.
Import Py PyFacts Board BoardFacts.

Lemma any_spec {A} (f : A → result bool) (g : A → bool) (xs : list A) :
  (∀ x, x ∈ xs → f x = Ok (g x)) → any f xs = Ok (existsb g xs).
Proof.
  induction xs as [|x xs IH]; intros Hf; simpl; [done|].
  rewrite (Hf x) by (apply elem_of_cons; by left). simpl.
  destruct (g x); [done|]. apply IH. intros x' Hx'.
  apply Hf, elem_of_cons. by right.
Qed.

(** Whether the cell in column [x] of row [y] holds a kind. *)
Local Abbreviation occupied b x y :=
  (match cell b (Z.to_nat x) (Z.to_nat y) with
   | Some (Some _) => true
   | _ => false
   end).

Lemma any_in_row (b : t) (y : Z) :
  well_formed b → 0 ≤ y < height b + hidden b →
  any (λ x, row ← getitem (grid b) y;
            cell ← getitem row x;
            Ok (bool_decide (cell ≠ None)))
      (range (width b))
  = Ok (existsb (λ x, occupied b x y) (range (width b))).
Proof.
  intros Hwf Hy. apply any_spec. intros x Hx%elem_of_seqZ.
  destruct (inside_cells b x y Hwf) as (row & c & Hrow & Hc & -> & Hget).
  { apply inside_spec. lia. }
  simpl. rewrite Hget. simpl. unfold cell. rewrite Hrow. simpl. rewrite Hc.
  by destruct c.
Qed.

Lemma game_over_loop_spec (b : t) (ys : list Z) :
  well_formed b → (∀ y, y ∈ ys → 0 ≤ y < height b + hidden b) →
  game_over_loop b ys =
    Ok (existsb (λ y, existsb (λ x, occupied b x y) (range (width b))) ys).
Proof.
  intros Hwf. induction ys as [|y ys IH]; intros Hys; simpl; [done|].
  rewrite any_in_row by (try done; apply Hys, elem_of_cons; by left).
  simpl. destruct (existsb _ (range (width b))); [done|].
  apply IH. intros y' Hy'. apply Hys, elem_of_cons. by right.
Qed.

(** On a board of the constructed shape with a non-negative height,
    [game_over] returns, and returns true exactly when some cell of the
    rows [0 .. hidden - 1] holds a kind. *)
Lemma hidden_rows_occupied (b : Board.t) :
  well_formed b → 0 ≤ height b →
  ∃ v, game_over b = Ok v ∧
       (v = true ↔
        ∃ x y k, 0 ≤ x < width b ∧ 0 ≤ y < hidden b ∧
                 cell b (Z.to_nat x) (Z.to_nat y) = Some (Some k)).
Proof.
  intros Hwf Hh. eexists. split.
  - apply game_over_loop_spec; [done|].
    intros y Hy%elem_of_seqZ. lia.
  - rewrite existsb_exists. split.
    + intros (y & Hy%list_elem_of_In%elem_of_seqZ & Hrow).
      apply existsb_exists in Hrow
        as (x & Hx%list_elem_of_In%elem_of_seqZ & Hocc).
      destruct (cell b (Z.to_nat x) (Z.to_nat y)) as [[k|]|] eqn:Hc; try done.
      exists x, y, k. split_and!; try done; lia.
    + intros (x & y & k & Hx & Hy & Hc). exists y. split.
      * apply list_elem_of_In, elem_of_seqZ. lia.
      * apply existsb_exists. exists x. split.
        -- apply list_elem_of_In, elem_of_seqZ. lia.
        -- by rewrite Hc.
Qed.

End GameOverFacts.

(** ** The bag *)

Module BagFacts.
Import Py PyFacts TetrisGame.

Lemma rot_shuffle_perm (g : nat) (l : list Kind) :
  (Samples.rot_shuffle g l).1 ≡ₚ l.
Proof.
  simpl. unfold rotate. rewrite Permutation_app_comm. by rewrite take_drop.
Qed.

Lemma keys_NoDup : NoDup TETROMINOES_keys.
Proof. by apply (bool_decide_unpack _). Qed.

Section Bag.
Context {F : Float} {rng : Type}.
Variable shuffle : rng → list Kind → list Kind * rng.
Hypothesis shuffle_perm : ∀ g l, (shuffle g l).1 ≡ₚ l.

Local Abbreviation t := (TetrisGame.t F rng).

(** With a pending kind the draw pops it and does not refill. *)
Lemma next_from_bag_pending (s : t) k rest :
  bag s = k :: rest → next_from_bag shuffle s = Ok (k, set_bag s rest).
Proof.
  intros Hbag. unfold next_from_bag.
  rewrite bool_decide_false by congruence. by rewrite Hbag.
Qed.

(** With no pending kind the draw shuffles all 7 kinds into the bag. *)
Lemma next_from_bag_refill (s : t) :
  bag s = [] →
  ∃ k rest g,
    shuffle (random s) TETROMINOES_keys = (k :: rest, g) ∧
    k :: rest ≡ₚ TETROMINOES_keys ∧
    next_from_bag shuffle s = Ok (k, set_random (set_bag s rest) g).
Proof.
  intros Hbag. unfold next_from_bag, refill_bag.
  rewrite bool_decide_true by done.
  pose proof (shuffle_perm (random s) TETROMINOES_keys) as Hperm.
  destruct (shuffle (random s) TETROMINOES_keys) as [pieces g].
  simpl in Hperm. rewrite Hbag. simpl.
  destruct pieces as [|k rest].
  { apply Permutation_length in Hperm. discriminate. }
  exists k, rest, g. done.
Qed.

Lemma next_from_bag_Ok (s : t) :
  ∃ k s', next_from_bag shuffle s = Ok (k, s') ∧ draw_frame s s'.
Proof.
  destruct (bag s) as [|k rest] eqn:Hbag.
  - destruct (next_from_bag_refill s Hbag) as (k & rest & g & _ & _ & ->).
    eexists _, _. split; [done|]. by repeat split.
  - rewrite (next_from_bag_pending s k rest Hbag).
    eexists _, _. split; [done|]. by repeat split.
Qed.

(** Drawing as many kinds as are pending empties the bag in order. *)
Lemma draws_pending (l : list Kind) (s : t) :
  bag s = l → draws shuffle (length l) s = Ok (l, set_bag s []).
Proof.
  revert s. induction l as [|k rest IH]; intros s Hbag; simpl.
  - destruct s; simpl in *; by subst.
  - rewrite (next_from_bag_pending s k rest Hbag). simpl.
    by rewrite IH.
Qed.

Lemma draws_add (n m : nat) (s : t) :
  draws shuffle (n + m) s =
    '(l1, s1) ← draws shuffle n s;
    '(l2, s2) ← draws shuffle m s1;
    Ok (l1 ++ l2, s2).
Proof.
  revert s. induction n as [|n IH]; intros s; simpl.
  - by destruct (draws shuffle m s) as [[l2 s2]|e].
  - destruct (next_from_bag shuffle s) as [[k s1]|e]; simpl; [|done].
    rewrite IH. destruct (draws shuffle n s1) as [[l1 s2]|e]; simpl; [|done].
    by destruct (draws shuffle m s2) as [[l2 s3]|e].
Qed.

(** Seven draws from an empty bag are one shuffled batch. *)
Lemma draws_batch (s : t) :
  bag s = [] →
  ∃ batch s', draws shuffle 7 s = Ok (batch, s') ∧
              batch ≡ₚ TETROMINOES_keys ∧ bag s' = [].
Proof.
  intros Hbag.
  destruct (next_from_bag_refill s Hbag) as (k & rest & g & _ & Hperm & Hnext).
  assert (Hlen : length rest = 6%nat).
  { apply Permutation_length in Hperm. simpl in Hperm. lia. }
  change 7%nat with (S 6). rewrite <- Hlen.
  cbn [draws]. rewrite Hnext. simpl.
  rewrite draws_pending by done. simpl.
  by eexists _, _.
Qed.

Lemma draws_batches (m : nat) (s : t) :
  bag s = [] →
  ∃ runs s', draws shuffle (7 * m) s = Ok (concat runs, s') ∧
             length runs = m ∧
             Forall (λ run, run ≡ₚ TETROMINOES_keys) runs ∧
             bag s' = [].
Proof.
  revert s. induction m as [|m IH]; intros s Hbag.
  - exists [], s. by rewrite Nat.mul_0_r.
  - replace (7 * S m)%nat with (7 + 7 * m)%nat by lia.
    rewrite draws_add.
    destruct (draws_batch s Hbag) as (batch & s1 & -> & Hperm & Hbag1).
    rewrite bind_Ok_l.
    destruct (IH s1 Hbag1) as (runs & s' & -> & Hlen & Hruns & Hbag').
    rewrite bind_Ok_l. exists (batch :: runs), s'. split; [done|].
    split; [simpl; by rewrite Hlen|]. split; [by constructor|done].
Qed.

(** C5.  A draw refills the bag only when it is empty, and then with a
    permutation of all 7 kinds; starting from an empty bag, any number
    of batches of 7 draws succeeds, each batch is a permutation of the
    7 kinds without repeats, and the bag is empty after each batch. *)
Theorem bag_fairness (s : t) :
  bag s = [] →
  (∀ (s0 : t) k rest,
     bag s0 = k :: rest → next_from_bag shuffle s0 = Ok (k, set_bag s0 rest)) ∧
  (∃ k rest g,
     shuffle (random s) TETROMINOES_keys = (k :: rest, g) ∧
     k :: rest ≡ₚ TETROMINOES_keys ∧
     next_from_bag shuffle s = Ok (k, set_random (set_bag s rest) g)) ∧
  (∀ m : nat,
     ∃ runs s',
       draws shuffle (7 * m) s = Ok (concat runs, s') ∧
       length runs = m ∧
       (∀ run, run ∈ runs →
               length run = 7%nat ∧ NoDup run ∧ run ≡ₚ TETROMINOES_keys) ∧
       bag s' = []).
Proof.
  intros Hbag. split; [apply next_from_bag_pending|].
  split; [by apply next_from_bag_refill|].
  intros m. destruct (draws_batches m s Hbag) as (runs & s' & Hd & Hl & Hr & Hb).
  exists runs, s'. split_and!; try done.
  intros run Hrun. eapply Forall_forall in Hr; eauto.
  split_and!; [|by rewrite Hr; apply keys_NoDup|done].
  by rewrite Hr.
Qed.

End Bag.

Lemma bag_fairness_witness :
  (∀ g l, (Samples.rot_shuffle g l).1 ≡ₚ l) ∧
  bag Samples.fresh_game = [] ∧
  (∀ (s0 : TetrisGame.t Samples.rationals nat) k rest,
     bag s0 = k :: rest →
     next_from_bag Samples.rot_shuffle s0 = Ok (k, set_bag s0 rest)) ∧
  (∃ k rest g,
     Samples.rot_shuffle (random Samples.fresh_game) TETROMINOES_keys
       = (k :: rest, g) ∧
     k :: rest ≡ₚ TETROMINOES_keys ∧
     next_from_bag Samples.rot_shuffle Samples.fresh_game
       = Ok (k, set_random (set_bag Samples.fresh_game rest) g)) ∧
  (∀ m : nat,
     ∃ runs s',
       draws Samples.rot_shuffle (7 * m) Samples.fresh_game
         = Ok (concat runs, s') ∧
       length runs = m ∧
       (∀ run, run ∈ runs →
               length run = 7%nat ∧ NoDup run ∧ run ≡ₚ TETROMINOES_keys) ∧
       bag s' = []).
Proof.
  split; [exact rot_shuffle_perm|]. split; [reflexivity|].
  exact (bag_fairness Samples.rot_shuffle rot_shuffle_perm
                      Samples.fresh_game eq_refl).
Defined.

End BagFacts.


(** ** The engine *)

Module EngineFacts.
Import Py PyFacts Board BoardFacts PlaceFacts ClearFacts TetrisGame BagFacts.

Lemma valid_Ok (b : Board.t) (p : Piece.t) :
  well_formed b → ∃ v, valid b p = Ok v.
Proof.
  intros Hwf. destruct (valid_loop_spec b (Piece.blocks p) Hwf) as (v & Hv & _).
  by exists v.
Qed.

Section Engine.
Context {F : Float} {rng : Type}.
Variable shuffle : rng → list Kind → list Kind * rng.
Hypothesis shuffle_perm : ∀ g l, (shuffle g l).1 ≡ₚ l.

Local Abbreviation t := (TetrisGame.t F rng).

Lemma spawn_kind_Ok (s : t) : ∃ kind, spawn_kind shuffle s = Ok kind.
Proof.
  unfold spawn_kind. destruct (next_piece s) as [k|]; [by exists k|].
  destruct (next_from_bag_Ok shuffle shuffle_perm s) as (k & s1 & -> & _).
  by exists k.
Qed.

Lemma spawn_next_spec (s : t) (kind : Kind) (v : bool) :
  spawn_kind shuffle s = Ok kind →
  valid (board s) (spawn_piece (board s) kind) = Ok v →
  ∃ s', spawn_next shuffle s = Ok s' ∧ spawn_frame s s' ∧
        current s' = Some (spawn_piece (board s) kind) ∧
        gameover s' = (if v then gameover s else true) ∧
        is_Some (next_piece s').
Proof.
  unfold spawn_kind, spawn_next. intros Hkind Hvalid.
  destruct (next_piece s) as [k|] eqn:Hnext.
  - injection Hkind as ->. rewrite bind_Ok_l.
    destruct (next_from_bag_Ok shuffle shuffle_perm s)
      as (nk & s2 & -> & Hb & Hsc & Hlv & Hln & _ & _ & Hld & Hdi & Hlt & Hgo & Hpa).
    rewrite bind_Ok_l. cbn [board set_current set_next_piece].
    rewrite Hb. unfold spawn_piece in Hvalid. rewrite Hvalid, bind_Ok_l.
    destruct v; simpl; (eexists; split; [done|]); unfold spawn_frame; simpl;
      rewrite ?Hb, ?Hsc, ?Hlv, ?Hln, ?Hld, ?Hdi, ?Hlt, ?Hgo, ?Hpa;
      split_and!; eauto.
  - destruct (next_from_bag_Ok shuffle shuffle_perm s)
      as (k & s1 & Hs1 & Hb & Hsc & Hlv & Hln & _ & _ & Hld & Hdi & Hlt & Hgo & Hpa).
    rewrite Hs1 in Hkind |- *. injection Hkind as ->. rewrite !bind_Ok_l.
    destruct (next_from_bag_Ok shuffle shuffle_perm (set_next_piece s1 (Some kind)))
      as (nk & s2 & -> & Hb2 & Hsc2 & Hlv2 & Hln2 & _ & _ & Hld2 & Hdi2 & Hlt2
          & Hgo2 & Hpa2).
    simpl in Hb2, Hsc2, Hlv2, Hln2, Hld2, Hdi2, Hlt2, Hgo2, Hpa2.
    rewrite bind_Ok_l. cbn [board set_current set_next_piece].
    rewrite Hb2, Hb. unfold spawn_piece in Hvalid. rewrite Hvalid, bind_Ok_l.
    destruct v; simpl; (eexists; split; [done|]); unfold spawn_frame; simpl;
      rewrite ?Hb2, ?Hsc2, ?Hlv2, ?Hln2, ?Hld2, ?Hdi2, ?Hlt2, ?Hgo2, ?Hpa2,
              ?Hb, ?Hsc, ?Hlv, ?Hln, ?Hld, ?Hdi, ?Hlt, ?Hgo, ?Hpa;
      split_and!; eauto.
Qed.

(** C4.  When the piece that [spawn_next] builds, of the queued kind (or
    of the first draw when none is queued), at rotation 0 and origin
    [(width div 2 - 2, 0)], is not valid on the board, [spawn_next] returns
    with [gameover] set, the board as it was, and that piece as [current]. *)
Theorem spawn_collision (s : t) (kind : Kind) :
  let piece := Piece.mk kind 0 (width (board s) `div` 2 - 2) 0 in
  spawn_kind shuffle s = Ok kind →
  valid (board s) piece = Ok false →
  ∃ s', spawn_next shuffle s = Ok s' ∧
        gameover s' = true ∧
        board s' = board s ∧
        current s' = Some piece.
Proof.
  intros piece Hkind Hvalid.
  destruct (spawn_next_spec s kind false Hkind Hvalid)
    as (s' & Hs' & (Hb & _) & Hcur & Hgo & _).
  by exists s'.
Qed.

End Engine.

Lemma spawn_collision_witness :
  (∀ g l, (Samples.rot_shuffle g l).1 ≡ₚ l) ∧
  spawn_kind Samples.rot_shuffle Samples.blocked_game = Ok KO ∧
  valid (board Samples.blocked_game)
        (Piece.mk KO 0 (width (board Samples.blocked_game) `div` 2 - 2) 0)
    = Ok false ∧
  ∃ s', spawn_next Samples.rot_shuffle Samples.blocked_game = Ok s' ∧
        gameover s' = true ∧
        board s' = board Samples.blocked_game ∧
        current s' =
          Some (Piece.mk KO 0 (width (board Samples.blocked_game) `div` 2 - 2) 0).
Proof.
  split; [exact rot_shuffle_perm|]. split; [reflexivity|]. split; [reflexivity|].
  exact (spawn_collision Samples.rot_shuffle rot_shuffle_perm
                         Samples.blocked_game KO eq_refl eq_refl).
Defined.

(** *** Movement and rotation *)

Section Moves.
Context {F : Float} {rng : Type}.

Local Abbreviation t := (TetrisGame.t F rng).

(** The candidate that a kick [dx] gives for a rotated piece. *)
Local Abbreviation kicked np dx :=
  (Piece.mk (Piece.kind np) (Piece.rotation np) (Piece.x np + dx) (Piece.y np)).

Lemma kick_loop_first (s : t) (np : Piece.t) (pre post : list Z) (dx : Z) :
  (∀ d, d ∈ pre → valid (board s) (kicked np d) = Ok false) →
  valid (board s) (kicked np dx) = Ok true →
  kick_loop s np (pre ++ dx :: post) = Ok (set_current s (Some (kicked np dx))).
Proof.
  intros Hpre Hdx. induction pre as [|d pre IH]; simpl.
  - by rewrite Hdx.
  - rewrite (Hpre d) by (apply elem_of_cons; by left). simpl.
    apply IH. intros d' Hd'. apply Hpre, elem_of_cons. by right.
Qed.

Lemma kick_loop_none (s : t) (np : Piece.t) (dxs : list Z) :
  (∀ d, d ∈ dxs → valid (board s) (kicked np d) = Ok false) →
  kick_loop s np dxs = Ok s.
Proof.
  intros Hall. induction dxs as [|d dxs IH]; simpl; [done|].
  rewrite (Hall d) by (apply elem_of_cons; by left). simpl.
  apply IH. intros d' Hd'. apply Hall, elem_of_cons. by right.
Qed.

(** The loop ends without an exception, and changes [current] at most. *)
Lemma kick_loop_Ok (s : t) (np : Piece.t) (dxs : list Z) :
  well_formed (board s) →
  ∃ c, kick_loop s np dxs = Ok (set_current s c) ∧
       (is_Some (current s) → is_Some c).
Proof.
  intros Hwf. induction dxs as [|d dxs IH]; simpl.
  - exists (current s). split; [by destruct s|done].
  - destruct (valid_Ok (board s) (kicked np d) Hwf) as [[|] ->]; simpl.
    + eexists. split; [done|]. eauto.
    + exact IH.
Qed.

(** C8.  A rotation of a current piece ends without an exception; it
    tries the rotated piece at the kicks 0, -1, +1, -2, +2 in this order
    with y unchanged and commits the candidate of the first kick that the
    board validates, changing nothing but [current]; when the board
    validates none of the five, the engine is left as it was. *)
Theorem rotation_kick_order (s : t) (cur : Piece.t) (delta : Z) :
  let candidate dx :=
    Piece.mk (Piece.kind cur) ((Piece.rotation cur + delta) `mod` 4)
             (Piece.x cur + dx) (Piece.y cur) in
  well_formed (board s) →
  current s = Some cur →
  KICKS = [0; -1; 1; -2; 2] ∧
  (∃ s', rotate_current delta s = Ok s') ∧
  (∀ pre dx post,
     KICKS = pre ++ dx :: post →
     (∀ d, d ∈ pre → valid (board s) (candidate d) = Ok false) →
     valid (board s) (candidate dx) = Ok true →
     rotate_current delta s = Ok (set_current s (Some (candidate dx)))) ∧
  ((∀ d, d ∈ KICKS → valid (board s) (candidate d) = Ok false) →
   rotate_current delta s = Ok s).
Proof.
  intros candidate Hwf Hcur. unfold rotate_current. rewrite Hcur.
  split; [done|]. split; [|split].
  - destruct (kick_loop_Ok s (Piece.rotated cur delta) KICKS Hwf) as (c & -> & _).
    by eexists.
  - intros pre dx post -> Hpre Hdx.
    by apply (kick_loop_first s (Piece.rotated cur delta)).
  - intros Hall. by apply (kick_loop_none s (Piece.rotated cur delta)).
Qed.

End Moves.

Lemma rotation_kick_order_witness :
  well_formed (board Samples.paused_game) ∧
  current Samples.paused_game = Some Samples.O_spawn ∧
  KICKS = [0; -1; 1; -2; 2] ∧
  (∃ s', rotate_current 1 Samples.paused_game = Ok s') ∧
  (∀ pre dx post,
     KICKS = pre ++ dx :: post →
     (∀ d, d ∈ pre →
           valid (board Samples.paused_game)
                 (Piece.mk (Piece.kind Samples.O_spawn)
                           ((Piece.rotation Samples.O_spawn + 1) `mod` 4)
                           (Piece.x Samples.O_spawn + d)
                           (Piece.y Samples.O_spawn)) = Ok false) →
     valid (board Samples.paused_game)
           (Piece.mk (Piece.kind Samples.O_spawn)
                     ((Piece.rotation Samples.O_spawn + 1) `mod` 4)
                     (Piece.x Samples.O_spawn + dx)
                     (Piece.y Samples.O_spawn)) = Ok true →
     rotate_current 1 Samples.paused_game =
       Ok (set_current Samples.paused_game
             (Some (Piece.mk (Piece.kind Samples.O_spawn)
                             ((Piece.rotation Samples.O_spawn + 1) `mod` 4)
                             (Piece.x Samples.O_spawn + dx)
                             (Piece.y Samples.O_spawn))))) ∧
  ((∀ d, d ∈ KICKS →
         valid (board Samples.paused_game)
               (Piece.mk (Piece.kind Samples.O_spawn)
                         ((Piece.rotation Samples.O_spawn + 1) `mod` 4)
                         (Piece.x Samples.O_spawn + d)
                         (Piece.y Samples.O_spawn)) = Ok false) →
   rotate_current 1 Samples.paused_game = Ok Samples.paused_game).
Proof.
  split; [apply Collision.init_well_formed|]. split; [reflexivity|].
  exact (rotation_kick_order Samples.paused_game Samples.O_spawn 1
           (Collision.init_well_formed _ _ _) eq_refl).
Defined.

Section Translation.
Context {F : Float} {rng : Type}.

Local Abbreviation t := (TetrisGame.t F rng).

Lemma move_current_Ok (dx dy : Z) (s : t) :
  well_formed (board s) →
  ∃ moved c, move_current dx dy s = Ok (moved, set_current s c) ∧
             (is_Some (current s) → is_Some c).
Proof.
  intros Hwf. unfold move_current. destruct (current s) as [cur|] eqn:Hcur.
  - match goal with |- context [valid ?b ?p] =>
      destruct (valid_Ok b p Hwf) as [[|] ->] end; simpl.
    + eexists _, _. split; [done|]. eauto.
    + exists false, (Some cur). split; [|eauto].
      destruct s; simpl in *; by subst.
  - exists false, None. split; [|done]. destruct s; simpl in *; by subst.
Qed.

(** What [move_current] does.  Without a current piece it changes nothing
    and returns false; with one, it commits exactly the translated piece
    and returns true when the board validates it, and changes nothing and
    returns false when the board rejects it. *)
Lemma move_commits_translation (s : t) (dx dy : Z) :
  (current s = None → move_current dx dy s = Ok (false, s)) ∧
  (∀ cur,
     let moved :=
       Piece.mk (Piece.kind cur) (Piece.rotation cur)
                (Piece.x cur + dx) (Piece.y cur + dy) in
     current s = Some cur →
     (valid (board s) moved = Ok true →
      move_current dx dy s = Ok (true, set_current s (Some moved))) ∧
     (valid (board s) moved = Ok false →
      move_current dx dy s = Ok (false, s))).
Proof.
  split.
  - intros Hcur. unfold move_current. by rewrite Hcur.
  - intros cur moved Hcur. unfold move_current. rewrite Hcur.
    fold moved. split; by intros ->.
Qed.

End Translation.

(** C2 at a failing input.  The game is paused, with the O piece where it
    spawned on an empty board.  [move_current(-1, 0)] moves the piece one
    column to the left and returns true, where the claim has it change
    nothing and return false; and so the key [a], which [handle_input]
    passes on without a look at [paused], moves the piece of the paused
    game too. *)
Lemma move_while_paused :
  paused Samples.paused_game = true ∧
  current Samples.paused_game = Some (Piece.mk KO 0 3 0) ∧
  move_current (-1) 0 Samples.paused_game
    = Ok (true, set_current Samples.paused_game (Some (Piece.mk KO 0 2 0))) ∧
  move_current (-1) 0 Samples.paused_game ≠ Ok (false, Samples.paused_game) ∧
  handle_input Samples.rot_shuffle 26 ord_a Samples.paused_game
    = Some (Ok (set_current Samples.paused_game (Some (Piece.mk KO 0 2 0)))).
Proof. split_and!; [reflexivity..|discriminate|reflexivity]. Qed.

(** *** Locking *)

Section Award.
Context {F : Float} {rng : Type}.

Local Abbreviation t := (TetrisGame.t F rng).

(** [level_to_interval] returns [max(0.05, 1.0 * p)] when [0.85**level]
    returns [p], and raises what the power raises. *)
Lemma level_to_interval_Ok (l : Z) (interval : float) :
  level_to_interval l = Ok interval ↔
  ∃ p, float_pow lit_0_85 l = Ok p ∧
       interval = float_max lit_0_05 (float_mul lit_1_0 p).
Proof.
  unfold level_to_interval. destruct (float_pow lit_0_85 l) as [p|e]; simpl.
  - split.
    + intros [= <-]. by exists p.
    + by intros (p' & [= <-] & ->).
  - split; [done|]. by intros (p' & [=] & _).
Qed.

Lemma level_to_interval_Raise (l : Z) (e : exn) :
  level_to_interval l = Raise e ↔ float_pow lit_0_85 l = Raise e.
Proof.
  unfold level_to_interval. destruct (float_pow lit_0_85 l) as [p|e']; simpl.
  - split; discriminate.
  - split; by intros [= ->].
Qed.

(** The points of [c] cleared rows at level 0. *)
Local Abbreviation points c :=
  (if c =? 0 then 0 else if c =? 1 then 40 else
   if c =? 2 then 100 else if c =? 3 then 300 else 1200).

(** What [award] has done when it returns. *)
Lemma award_Ok (c : Z) (s a : t) :
  0 ≤ c → award c s = Ok a →
  (board a = board s ∧ bag a = bag s ∧ next_piece a = next_piece s ∧
   current a = current s ∧ gameover a = gameover s ∧ paused a = paused s ∧
   random a = random s ∧ lock_delay a = lock_delay s ∧
   last_drop_time a = last_drop_time s) ∧
  score a = score s + points c * (level s + 1) ∧
  lines a = lines s + c ∧
  level a = (if c =? 0 then level s else (lines s + c) `div` 10) ∧
  (level a = level s → drop_interval a = drop_interval s) ∧
  (level a ≠ level s → level_to_interval (level a) = Ok (drop_interval a)).
Proof.
  intros Hc. unfold award.
  destruct (Z.eqb_spec c 0) as [->|Hc0].
  { intros [= <-]. split_and!; try done; lia. }
  destruct (Z.eqb_spec c 1), (Z.eqb_spec c 2), (Z.eqb_spec c 3),
    (Z.geb_spec c 4); try lia; simpl.
  all: case_bool_decide as Hlv; simpl in Hlv.
  all: try (destruct (level_to_interval ((lines s + c) `div` 10))
              as [interval|e'] eqn:Hint; simpl; [|discriminate]).
  all: intros [= <-]; simpl; split_and!; try done; try lia.
  all: try (intros Hne; exfalso; apply Hne; symmetry;
            by apply dec_stable).
Qed.

(** [award] returns unless the level changes and [level_to_interval]
    raises at the new level, and then it raises the same. *)
Lemma award_returns (c : Z) (s : t) :
  (c ≠ 0 → (lines s + c) `div` 10 ≠ level s →
   ∃ interval, level_to_interval ((lines s + c) `div` 10) = Ok interval) →
  ∃ a, award c s = Ok a.
Proof.
  intros Hint. unfold award.
  destruct (Z.eqb_spec c 0) as [->|Hc0]; [by eexists|].
  destruct (c =? 1), (c =? 2), (c =? 3), (c >=? 4); simpl.
  all: case_bool_decide as Hlv; simpl in Hlv; [|by eexists].
  all: destruct (Hint Hc0 Hlv) as [interval ->]; by eexists.
Qed.

Lemma award_raises (c : Z) (s : t) (e : exn) :
  c ≠ 0 → (lines s + c) `div` 10 ≠ level s →
  level_to_interval ((lines s + c) `div` 10) = Raise e →
  award c s = Raise e.
Proof.
  intros Hc0 Hlv Hint. unfold award.
  destruct (Z.eqb_spec c 0); [done|].
  destruct (c =? 1), (c =? 2), (c =? 3), (c >=? 4); simpl.
  all: rewrite bool_decide_true by done; by rewrite Hint.
Qed.

(** ... and it raises in that case only. *)
Lemma award_Raise (c : Z) (s : t) (e : exn) :
  award c s = Raise e →
  c ≠ 0 ∧ (lines s + c) `div` 10 ≠ level s ∧
  float_pow lit_0_85 ((lines s + c) `div` 10) = Raise e.
Proof.
  unfold award. destruct (Z.eqb_spec c 0) as [->|Hc0]; [done|].
  destruct (c =? 1), (c =? 2), (c =? 3), (c >=? 4); simpl.
  all: case_bool_decide as Hlv; simpl in Hlv; [|done].
  all: destruct (level_to_interval ((lines s + c) `div` 10))
         as [interval|e'] eqn:Hint; simpl; [done|].
  all: intros [= ->]; by apply level_to_interval_Raise in Hint.
Qed.

End Award.

Section Locking.
Context {F : Float} {rng : Type}.
Variable shuffle : rng → list Kind → list Kind * rng.
Hypothesis shuffle_perm : ∀ g l, (shuffle g l).1 ≡ₚ l.

Local Abbreviation t := (TetrisGame.t F rng).

(** [lock_piece] step by step: the placement, the clearing, the award and
    the spawn, of which only the award can raise on a board of the
    constructed shape. *)
Lemma lock_piece_spec (s : t) (cur : Piece.t) :
  well_formed (board s) → current s = Some cur →
  ∃ b1,
    place (board s) cur = Ok b1 ∧
    (∀ e, award (clear_lines b1).1 (set_board s (clear_lines b1).2) = Raise e →
          lock_piece shuffle s = Raise e) ∧
    (∀ a, award (clear_lines b1).1 (set_board s (clear_lines b1).2) = Ok a →
          ∃ kind v s',
            lock_piece shuffle s = Ok s' ∧
            valid (clear_lines b1).2 (spawn_piece (clear_lines b1).2 kind)
              = Ok v ∧
            spawn_frame a s' ∧
            well_formed (board s') ∧
            current s' = Some (spawn_piece (clear_lines b1).2 kind) ∧
            gameover s' = (if v then gameover s else true) ∧
            spawn_kind shuffle a = Ok kind ∧
            spawn_next shuffle a = Ok s').
Proof.
  intros Hwf Hcur. unfold lock_piece. rewrite Hcur.
  destruct (place_loop_spec (Piece.kind cur) (Piece.blocks cur) (board s) Hwf)
    as (b1 & Hplace & Hwf1 & _ & _).
  fold (place (board s) cur) in Hplace. rewrite Hplace, bind_Ok_l.
  exists b1. split; [done|].
  destruct (clear_lines_well_formed b1 Hwf1) as [Hwf2 _].
  pose proof (clear_lines_spec b1) as Hcount.
  destruct (clear_lines b1) as [c b2] eqn:Hclear. simpl in Hwf2, Hcount |- *.
  split; [by intros e ->|]. intros a Ha. rewrite Ha, bind_Ok_l.
  destruct (award_Ok c (set_board s b2) a) as ((Hb & _ & _ & _ & Hgo & _) & _);
    [injection Hcount as -> _; lia|done|].
  simpl in Hb, Hgo.
  destruct (spawn_kind_Ok shuffle shuffle_perm a) as [kind Hkind].
  destruct (valid_Ok (board a) (spawn_piece (board a) kind)) as [v Hv].
  { by rewrite Hb. }
  destruct (spawn_next_spec shuffle shuffle_perm a kind v Hkind Hv)
    as (s' & Hs' & Hfr & Hcur' & Hgo' & _).
  exists kind, v, s'. rewrite Hb in Hv, Hcur'. rewrite Hgo in Hgo'.
  split_and!; try done.
  destruct Hfr as (-> & _). by rewrite Hb.
Qed.

(** C7.  A lock with a current piece on a board of the constructed shape
    places the piece; let [c] be the number of full rows after the
    placement, which is the number [clear_lines] removes.  When [c] is
    positive and [(lines + c) div 10] differs from the level, the lock
    evaluates [0.85**((lines + c) div 10)] and raises what that power
    raises.  In every other case it returns: the score grows by 40, 100,
    300 or 1200 times [level + 1] for [c] = 1, 2, 3 or at least 4 and not
    at all for [c = 0]; [lines] grows by [c]; the level becomes
    [lines div 10] when a row was cleared and stays otherwise (so it is
    [lines div 10] after the lock whenever it was before); and the drop
    interval becomes [max(0.05, 1.0 * p)], in floats, with [p] the value
    of [0.85**level] at the new level, when the level changed, and stays
    otherwise. *)
Theorem lock_scoring (s : t) (cur : Piece.t) :
  well_formed (board s) →
  current s = Some cur →
  ∃ b1,
    place (board s) cur = Ok b1 ∧
    let c := Z.of_nat (length (filter full (grid b1))) in
    let new_level := (lines s + c) `div` 10 in
    (clear_lines b1).1 = c ∧
    (∀ e, 0 < c → new_level ≠ level s →
          float_pow lit_0_85 new_level = Raise e →
          lock_piece shuffle s = Raise e) ∧
    ((0 < c → new_level ≠ level s →
      ∃ p, float_pow lit_0_85 new_level = Ok p) →
     ∃ s',
       lock_piece shuffle s = Ok s' ∧
       (c = 0 → score s' = score s) ∧
       (c = 1 → score s' = score s + 40 * (level s + 1)) ∧
       (c = 2 → score s' = score s + 100 * (level s + 1)) ∧
       (c = 3 → score s' = score s + 300 * (level s + 1)) ∧
       (4 ≤ c → score s' = score s + 1200 * (level s + 1)) ∧
       lines s' = lines s + c ∧
       (0 < c → level s' = lines s' `div` 10) ∧
       (c = 0 → level s' = level s) ∧
       (level s = lines s `div` 10 → level s' = lines s' `div` 10) ∧
       (level s' = level s → drop_interval s' = drop_interval s) ∧
       (level s' ≠ level s →
        ∃ p, float_pow lit_0_85 (level s') = Ok p ∧
             drop_interval s' = float_max lit_0_05 (float_mul lit_1_0 p))).
Proof.
  intros Hwf Hcur.
  destruct (lock_piece_spec s cur Hwf Hcur) as (b1 & Hplace & Hraise & Hret).
  exists b1. split; [done|].
  pose proof (clear_lines_spec b1) as Hclear.
  destruct (clear_lines b1) as [c' b2]. injection Hclear as -> _.
  simpl in Hraise, Hret |- *.
  set (c := Z.of_nat (length (filter full (grid b1)))) in *.
  assert (Hc : 0 ≤ c) by (unfold c; lia).
  split; [done|]. split.
  - intros e Hpos Hlv Hpow. apply Hraise, award_raises; simpl; [lia|done|].
    by apply level_to_interval_Raise.
  - intros Hpow.
    destruct (award_returns c (set_board s b2)) as [a Ha].
    { simpl. intros Hc0 Hlv. destruct Hpow as [p Hp]; [lia|done|].
      eexists. apply level_to_interval_Ok. eauto. }
    destruct (Hret a Ha) as (kind & v & s' & Hlock & _ & Hfr & _).
    exists s'. split; [done|].
    destruct (award_Ok _ _ _ Hc Ha) as (_ & Hsc & Hln & Hlv & Hsame & Hnew).
    destruct Hfr as (_ & Hscore & Hlevel & Hlines & _ & Hint & _).
    simpl in Hsc, Hln, Hlv, Hsame, Hnew.
    rewrite Hscore, Hlines, Hlevel, Hint, Hsc, Hln.
    assert (Hnew' : level a ≠ level s →
              ∃ p, float_pow lit_0_85 (level a) = Ok p ∧
                   drop_interval a = float_max lit_0_05 (float_mul lit_1_0 p)).
    { intros Hne. by apply level_to_interval_Ok, Hnew. }
    clear Hscore Hlines Hlevel Hint Hsc Hln Hnew.
    destruct (Z.eqb_spec c 0) as [Hc0|Hc0].
    { split_and!; intros; try lia; try done; auto.
      rewrite Hlv, Hc0, Z.add_0_r. done. }
    rewrite Hlv in *.
    destruct (Z.eqb_spec c 1), (Z.eqb_spec c 2), (Z.eqb_spec c 3);
      split_and!; intros; try lia; try done; auto.
Qed.

End Locking.

Lemma gap_board_well_formed (n : nat) :
  (n ≤ 24)%nat → well_formed (Samples.gap_board n).
Proof.
  intros Hn. split; simpl.
  - rewrite length_app, !length_replicate. lia.
  - apply Forall_app. split; by apply Forall_replicate.
Qed.

Lemma lock_scoring_witness :
  (∀ g l, (Samples.rot_shuffle g l).1 ≡ₚ l) ∧
  well_formed (board (Samples.gap_game false)) ∧
  current (Samples.gap_game false) = Some (Piece.mk KO 0 3 22) ∧
  ∃ b1,
    place (board (Samples.gap_game false)) (Piece.mk KO 0 3 22) = Ok b1 ∧
    let c := Z.of_nat (length (filter full (grid b1))) in
    let new_level := (lines (Samples.gap_game false) + c) `div` 10 in
    (clear_lines b1).1 = c ∧
    (∀ e, 0 < c → new_level ≠ level (Samples.gap_game false) →
          @float_pow Samples.rationals lit_0_85 new_level = Raise e →
          lock_piece Samples.rot_shuffle (Samples.gap_game false) = Raise e) ∧
    ((0 < c → new_level ≠ level (Samples.gap_game false) →
      ∃ p, @float_pow Samples.rationals lit_0_85 new_level = Ok p) →
     ∃ s',
       lock_piece Samples.rot_shuffle (Samples.gap_game false) = Ok s' ∧
       (c = 0 → score s' = score (Samples.gap_game false)) ∧
       (c = 1 → score s' = score (Samples.gap_game false)
                           + 40 * (level (Samples.gap_game false) + 1)) ∧
       (c = 2 → score s' = score (Samples.gap_game false)
                           + 100 * (level (Samples.gap_game false) + 1)) ∧
       (c = 3 → score s' = score (Samples.gap_game false)
                           + 300 * (level (Samples.gap_game false) + 1)) ∧
       (4 ≤ c → score s' = score (Samples.gap_game false)
                           + 1200 * (level (Samples.gap_game false) + 1)) ∧
       lines s' = lines (Samples.gap_game false) + c ∧
       (0 < c → level s' = lines s' `div` 10) ∧
       (c = 0 → level s' = level (Samples.gap_game false)) ∧
       (level (Samples.gap_game false)
          = lines (Samples.gap_game false) `div` 10 →
        level s' = lines s' `div` 10) ∧
       (level s' = level (Samples.gap_game false) →
        drop_interval s' = drop_interval (Samples.gap_game false)) ∧
       (level s' ≠ level (Samples.gap_game false) →
        ∃ p, @float_pow Samples.rationals lit_0_85 (level s') = Ok p ∧
             drop_interval s' = float_max lit_0_05 (float_mul lit_1_0 p))).
Proof.
  assert (Hwf : well_formed (board (Samples.gap_game false))).
  { apply (gap_board_well_formed 2). lia. }
  split; [exact rot_shuffle_perm|]. split; [exact Hwf|]. split; [reflexivity|].
  exact (lock_scoring Samples.rot_shuffle rot_shuffle_perm
                      (Samples.gap_game false) (Piece.mk KO 0 3 22) Hwf eq_refl).
Defined.

(** *** After the game is over *)

Section Terminal.
Context {F : Float} {rng : Type}.
Variable shuffle : rng → list Kind → list Kind * rng.
Hypothesis shuffle_perm : ∀ g l, (shuffle g l).1 ≡ₚ l.

Local Abbreviation t := (TetrisGame.t F rng).

Lemma rotate_current_Ok (delta : Z) (s : t) :
  well_formed (board s) →
  ∃ c, rotate_current delta s = Ok (set_current s c) ∧
       (is_Some (current s) → is_Some c).
Proof.
  intros Hwf. unfold rotate_current. destruct (current s) as [cur|] eqn:Hcur.
  - destruct (kick_loop_Ok s (Piece.rotated cur delta) KICKS Hwf) as (c & -> & Hc).
    exists c. split; [done|]. intros _. apply Hc. rewrite Hcur. eauto.
  - exists None. split; [|by intros [? ?]]. destruct s; simpl in *; by subst.
Qed.

(** Moves, rotations and ticks of a finished game touch neither the board
    nor the counters. *)
Lemma step_over_frame (o : op F) (s : t) :
  well_formed (board s) → gameover s = true → o ≠ Lock →
  ∃ s', step shuffle o s = Ok s' ∧
        score s' = score s ∧ level s' = level s ∧ board s' = board s ∧
        gameover s' = true.
Proof.
  intros Hwf Hover Ho. destruct o as [dx dy|delta| |now]; simpl.
  - destruct (move_current_Ok dx dy s Hwf) as (m & c & -> & _).
    by eexists.
  - destruct (rotate_current_Ok delta s Hwf) as (c & -> & _). by eexists.
  - done.
  - unfold tick. rewrite Hover, orb_true_r. by eexists.
Qed.

(** [lock_piece] with a current piece keeps the shape of the board, has
    a current piece again and does not reset [gameover], whenever it
    returns. *)
Lemma lock_piece_latch (s s' : t) :
  well_formed (board s) → is_Some (current s) →
  lock_piece shuffle s = Ok s' →
  well_formed (board s') ∧ is_Some (current s') ∧
  (gameover s = true → gameover s' = true).
Proof.
  intros Hwf [cur Hcur] Hlock.
  destruct (lock_piece_spec shuffle shuffle_perm s cur Hwf Hcur)
    as (b1 & _ & Hraise & Hret).
  destruct (award _ _) as [a|e].
  - destruct (Hret a eq_refl)
      as (kind & v & s1 & Hs1 & _ & _ & Hwf' & Hcur' & Hgo & _).
    rewrite Hs1 in Hlock. injection Hlock as <-.
    split; [done|]. split; [by rewrite Hcur'|].
    intros Hover. rewrite Hgo, Hover. by destruct v.
  - by rewrite (Hraise e eq_refl) in Hlock.
Qed.

(** A lock clears no more rows than the grid has, so the line count
    grows by that many at most; with a current piece and a line count that
    is not negative, [lock_piece] returns when [0.85**level] does up to
    the level of that many lines more. *)
Lemma lock_piece_Ok (bound : Z) (s : t) :
  gravity_defined bound → well_formed (board s) → 0 ≤ lines s →
  (lines s + rows (board s)) `div` 10 ≤ bound →
  is_Some (current s) →
  ∃ s', lock_piece shuffle s = Ok s' ∧
        lines s ≤ lines s' ≤ lines s + rows (board s) ∧
        rows (board s') = rows (board s).
Proof.
  intros Hpow Hwf Hln Hbound [cur Hcur].
  destruct (lock_piece_spec shuffle shuffle_perm s cur Hwf Hcur)
    as (b1 & Hplace & _ & Hret).
  destruct (place_loop_spec (Piece.kind cur) (Piece.blocks cur) (board s) Hwf)
    as (b1' & Hplace' & Hwf1 & Hfr1 & _).
  fold (place (board s) cur) in Hplace'. rewrite Hplace in Hplace'.
  injection Hplace' as <-.
  destruct (clear_lines_well_formed b1 Hwf1) as [Hwf2 Hfr2].
  assert (Hrows1 : rows b1 = rows (board s))
    by (symmetry; by apply rows_same_frame).
  assert (Hrows2 : rows (clear_lines b1).2 = rows (board s))
    by (rewrite <- Hrows1; symmetry; by apply rows_same_frame).
  assert (Hc : 0 ≤ (clear_lines b1).1 ≤ rows (board s)).
  { rewrite <- Hrows1, clear_lines_spec. simpl. unfold rows.
    pose proof (length_filter full (grid b1)). lia. }
  destruct (award_returns (clear_lines b1).1 (set_board s (clear_lines b1).2))
    as [a Ha].
  { simpl. intros _ _.
    destruct (Hpow ((lines s + (clear_lines b1).1) `div` 10)) as [p Hp].
    { split; [apply Z.div_pos; lia|].
      etrans; [|exact Hbound]. apply Z.div_le_mono; lia. }
    eexists. apply level_to_interval_Ok. eauto. }
  destruct (Hret a Ha) as (kind & v & s' & -> & _ & Hfr & _).
  destruct (award_Ok _ _ _ (proj1 Hc) Ha) as ((Hb & _) & _ & Hln' & _).
  destruct Hfr as (Hb' & _ & _ & Hlines & _).
  simpl in Hln', Hb.
  exists s'. split; [done|]. rewrite Hlines, Hln', Hb', Hb. split; [lia|done].
Qed.

(** No operation resets [gameover]. *)
Lemma step_over_latch (o : op F) (s s' : t) :
  well_formed (board s) → gameover s = true → is_Some (current s) →
  step shuffle o s = Ok s' →
  well_formed (board s') ∧ gameover s' = true ∧ is_Some (current s').
Proof.
  intros Hwf Hover Hcur. destruct o as [dx dy|delta| |now]; simpl.
  - destruct (move_current_Ok dx dy s Hwf) as (m & c & -> & Hc).
    intros [= <-]. simpl. auto.
  - destruct (rotate_current_Ok delta s Hwf) as (c & -> & Hc).
    intros [= <-]. simpl. auto.
  - intros Hlock.
    destruct (lock_piece_latch s s' Hwf Hcur Hlock) as (? & ? & ?). auto.
  - unfold tick. rewrite Hover, orb_true_r. intros [= <-]. simpl. auto.
Qed.

(** None raises while there is a current piece and the line count is not
    negative, where [0.85**level] returns up to the level of a grid of
    lines more. *)
Lemma step_over_Ok (bound : Z) (o : op F) (s : t) :
  gravity_defined bound → well_formed (board s) → 0 ≤ lines s →
  (lines s + rows (board s)) `div` 10 ≤ bound →
  gameover s = true → is_Some (current s) →
  ∃ s', step shuffle o s = Ok s' ∧
        lines s ≤ lines s' ≤ lines s + rows (board s) ∧
        rows (board s') = rows (board s).
Proof.
  intros Hpow Hwf Hln Hbound Hover Hcur.
  assert (Hrows : 0 ≤ rows (board s)) by (unfold rows; lia).
  destruct o as [dx dy|delta| |now]; simpl.
  - destruct (move_current_Ok dx dy s Hwf) as (m & c & -> & Hc).
    eexists. split; [done|]. simpl. split; [lia|done].
  - destruct (rotate_current_Ok delta s Hwf) as (c & -> & Hc).
    eexists. split; [done|]. simpl. split; [lia|done].
  - by apply (lock_piece_Ok bound).
  - unfold tick. rewrite Hover, orb_true_r.
    eexists. split; [done|]. simpl. split; [lia|done].
Qed.

(** C3, as the code has it.  Once [gameover] is set on a board of the
    constructed shape, every sequence of moves, rotations and ticks
    returns and leaves the score, the level, the board and [gameover] as
    they were.  A sequence that also locks, given a current piece, leaves
    [gameover] set whenever it returns; and it returns when the line count
    is not negative and [0.85**level] returns up to the level the line
    count can reach, each lock adding as many lines as the grid has rows
    at most (a lock that changes the level evaluates that power, which
    raises out of the range of the doubles). *)
Theorem terminal_idempotence (s : t) :
  well_formed (board s) →
  gameover s = true →
  (∀ os, Lock ∉ os →
         ∃ s', run shuffle os s = Ok s' ∧
               score s' = score s ∧ level s' = level s ∧
               grid (board s') = grid (board s) ∧ gameover s' = true) ∧
  (∀ os, is_Some (current s) →
         (∀ s', run shuffle os s = Ok s' → gameover s' = true) ∧
         (∀ bound,
            gravity_defined bound → 0 ≤ lines s →
            (lines s + Z.of_nat (length os) * rows (board s)) `div` 10
              ≤ bound →
            ∃ s', run shuffle os s = Ok s' ∧ gameover s' = true)).
Proof.
  intros Hwf Hover. split.
  - intros os. revert s Hwf Hover.
    induction os as [|o os IH]; intros s Hwf Hover Hos; simpl.
    + by exists s.
    + apply not_elem_of_cons in Hos as [Ho Hos].
      destruct (step_over_frame o s Hwf Hover) as (s1 & -> & Hsc & Hlv & Hb & Hgo).
      { congruence. }
      rewrite bind_Ok_l.
      destruct (IH s1) as (s' & -> & Hsc' & Hlv' & Hb' & Hgo'); try done.
      { by rewrite Hb. }
      exists s'. split; [done|]. by rewrite Hsc', Hlv', Hb', Hsc, Hlv, Hb.
  - intros os Hcur.
    assert (Hlatch : ∀ s', run shuffle os s = Ok s' → gameover s' = true).
    { revert s Hwf Hover Hcur.
      induction os as [|o os IH]; intros s Hwf Hover Hcur s'; simpl.
      - by intros [= <-].
      - intros (s1 & Hstep & Hrun)%bind_Ok.
        destruct (step_over_latch o s s1 Hwf Hover Hcur Hstep) as (? & ? & ?).
        by apply (IH s1). }
    split; [done|]. intros bound Hpow Hln Hbound.
    assert (Hret : ∃ s', run shuffle os s = Ok s'); [|destruct Hret; eauto].
    clear Hlatch. revert s Hwf Hover Hcur Hln Hbound.
    induction os as [|o os IH]; intros s Hwf Hover Hcur Hln Hbound; simpl.
    + by exists s.
    + assert (Hrows : 0 ≤ rows (board s)) by (unfold rows; lia).
      destruct (step_over_Ok bound o s Hpow Hwf Hln) as (s1 & Hstep & Hln1 & Hr1);
        [|done..|].
      { etrans; [|exact Hbound]. apply Z.div_le_mono; [lia|].
        rewrite length_cons. nia. }
      destruct (step_over_latch o s s1 Hwf Hover Hcur Hstep) as (? & ? & ?).
      rewrite Hstep, bind_Ok_l. apply IH; try done; [lia|].
      etrans; [|exact Hbound]. apply Z.div_le_mono; [lia|].
      rewrite Hr1, length_cons. nia.
Qed.

End Terminal.

Lemma rationals_gravity_defined (bound : Z) :
  @gravity_defined Samples.rationals bound.
Proof.
  intros l Hl. simpl. destruct (Z.ltb_spec l (-4367)); [lia|]. by eexists.
Qed.

Lemma terminal_idempotence_witness :
  (∀ g l, (Samples.rot_shuffle g l).1 ≡ₚ l) ∧
  well_formed (board (Samples.gap_game true)) ∧
  gameover (Samples.gap_game true) = true ∧
  (∀ os, Lock ∉ os →
         ∃ s', run Samples.rot_shuffle os (Samples.gap_game true) = Ok s' ∧
               score s' = score (Samples.gap_game true) ∧
               level s' = level (Samples.gap_game true) ∧
               grid (board s') = grid (board (Samples.gap_game true)) ∧
               gameover s' = true) ∧
  (∀ os, is_Some (current (Samples.gap_game true)) →
         (∀ s', run Samples.rot_shuffle os (Samples.gap_game true) = Ok s' →
                gameover s' = true) ∧
         (∀ bound,
            @gravity_defined Samples.rationals bound →
            0 ≤ lines (Samples.gap_game true) →
            (lines (Samples.gap_game true)
             + Z.of_nat (length os) * rows (board (Samples.gap_game true)))
              `div` 10 ≤ bound →
            ∃ s', run Samples.rot_shuffle os (Samples.gap_game true) = Ok s' ∧
                  gameover s' = true)).
Proof.
  assert (Hwf : well_formed (board (Samples.gap_game true))).
  { apply (gap_board_well_formed 2). lia. }
  split; [exact rot_shuffle_perm|]. split; [exact Hwf|]. split; [reflexivity|].
  exact (terminal_idempotence Samples.rot_shuffle rot_shuffle_perm
                              (Samples.gap_game true) Hwf eq_refl).
Defined.

(** C3, as the spec has it, fails for [lock_piece]: on a finished game it
    still places the piece, clears two rows and scores them. *)
Lemma lock_after_game_over :
  gameover (Samples.gap_game true) = true ∧
  score (Samples.gap_game true) = 0 ∧
  ∃ s', run Samples.rot_shuffle [Lock] (Samples.gap_game true) = Ok s' ∧
        score s' = 100 ∧
        grid (board s') ≠ grid (board (Samples.gap_game true)).
Proof.
  split; [reflexivity|]. split; [reflexivity|].
  eexists. split; [vm_compute; reflexivity|]. split; [reflexivity|].
  vm_compute. discriminate.
Qed.

(** *** Hard drop and the input commands *)

Section Drop.
Context {F : Float} {rng : Type}.

Local Abbreviation t := (TetrisGame.t F rng).

Lemma state_head (p : Piece.t) :
  ∃ bx b_y rest, Piece.state p = (bx, b_y) :: rest.
Proof.
  pose proof (PieceFacts.length_state p) as Hlen.
  destruct (Piece.state p) as [|[bx b_y] rest]; [done|]. by exists bx, b_y, rest.
Qed.

(** More fuel changes nothing once the loop has ended. *)
Lemma drop_loop_more_fuel (fuel fuel' : nat) (s : t) (r : result t) :
  (fuel ≤ fuel')%nat → drop_loop fuel s = Some r → drop_loop fuel' s = Some r.
Proof.
  revert fuel' s. induction fuel as [|fuel IH]; intros fuel' s Hle; [done|].
  destruct fuel' as [|fuel']; [lia|]. simpl.
  destruct (move_current 0 1 s) as [[[|] s1]|e]; try done.
  apply IH. lia.
Qed.

(** A piece that the board validates lies above the floor, so each turn
    of the loop brings the first block of the piece one row nearer to it. *)
Lemma drop_loop_fuel_from (fuel : nat) (s : t) (cur : Piece.t) bx b_y rest :
  well_formed (board s) → current s = Some cur →
  Piece.state cur = (bx, b_y) :: rest →
  (Z.to_nat (height (board s) + hidden (board s) - (Piece.y cur + b_y)) < fuel)%nat →
  is_Some (drop_loop fuel s).
Proof.
  revert s cur. induction fuel as [|fuel IH]; intros s cur Hwf Hcur Hst Hfuel; [lia|].
  simpl. unfold move_current. rewrite Hcur.
  set (moved := Piece.mk (Piece.kind cur) (Piece.rotation cur)
                         (Piece.x cur + 0) (Piece.y cur + 1)).
  destruct (valid_loop_spec (board s) (Piece.blocks moved) Hwf) as (v & Hv & Hiff).
  fold (valid (board s) moved) in Hv. rewrite Hv. simpl.
  destruct v; [|eauto].
  assert (Hst' : Piece.state moved = (bx, b_y) :: rest) by exact Hst.
  destruct Hiff as [Hfree _]. specialize (Hfree eq_refl).
  unfold Piece.blocks in Hfree. rewrite Hst' in Hfree.
  apply Forall_cons in Hfree as [[[_ Hy] _] _]. simpl in Hy.
  apply (IH (set_current s (Some moved)) moved); try done. simpl. lia.
Qed.

Lemma drop_loop_fuel (fuel : nat) (s : t) :
  well_formed (board s) →
  (Z.to_nat (height (board s) + hidden (board s)) + 2 ≤ fuel)%nat →
  is_Some (drop_loop fuel s).
Proof.
  intros Hwf Hfuel. destruct fuel as [|fuel]; [lia|].
  simpl. unfold move_current. destruct (current s) as [cur|] eqn:Hcur; [|eauto].
  set (moved := Piece.mk (Piece.kind cur) (Piece.rotation cur)
                         (Piece.x cur + 0) (Piece.y cur + 1)).
  destruct (valid_loop_spec (board s) (Piece.blocks moved) Hwf) as (v & Hv & Hiff).
  fold (valid (board s) moved) in Hv. rewrite Hv. simpl.
  destruct v; [|eauto].
  destruct (state_head moved) as (bx & b_y & rest & Hst).
  destruct Hiff as [Hfree _]. specialize (Hfree eq_refl).
  unfold Piece.blocks in Hfree. rewrite Hst in Hfree.
  apply Forall_cons in Hfree as [[[_ Hy] _] _]. simpl in Hy.
  apply (drop_loop_fuel_from fuel (set_current s (Some moved)) moved bx b_y rest);
    try done. simpl. lia.
Qed.

End Drop.

Section Latch.
Context {F : Float} {rng : Type}.
Variable shuffle : rng → list Kind → list Kind * rng.
Hypothesis shuffle_perm : ∀ g l, (shuffle g l).1 ≡ₚ l.

Local Abbreviation t := (TetrisGame.t F rng).

(** The loop changes [current] at most. *)
Lemma drop_loop_result (fuel : nat) (s : t) (r : result t) :
  well_formed (board s) → drop_loop fuel s = Some r →
  ∃ c, r = Ok (set_current s c) ∧ (is_Some (current s) → is_Some c).
Proof.
  revert s. induction fuel as [|fuel IH]; intros s Hwf; [done|]. simpl.
  destruct (move_current_Ok 0 1 s Hwf) as (m & c & -> & Hc).
  destruct m.
  - intros Hr. destruct (IH (set_current s c) Hwf Hr) as (c' & -> & Hc').
    exists c'. split; [done|]. intros Hcur. apply Hc', Hc, Hcur.
  - intros [= <-]. by exists c.
Qed.

(** X15.  [gameover] is a latch.  Given a current piece and fuel for
    the hard drop, [handle_input] ends for every key, and whenever it
    returns [gameover] is still set; it returns for every key but the
    space bar, and for the space bar too when the line count is not
    negative and [0.85**level] returns up to the level of as many lines
    more as the grid has rows (the lock of the hard drop evaluates that
    power when the level changes, and the power raises out of the range
    of the doubles).  Every tick returns with [gameover] set. *)
Theorem gameover_latch (fuel : nat) (key : Z) (now : float) (s : t) :
  well_formed (board s) →
  is_Some (current s) →
  gameover s = true →
  (Z.to_nat (height (board s) + hidden (board s)) + 2 ≤ fuel)%nat →
  (∃ r, handle_input shuffle fuel key s = Some r ∧
        (∀ s', r = Ok s' → gameover s' = true) ∧
        (key ≠ ord_space → ∃ s', r = Ok s') ∧
        (∀ bound, gravity_defined bound → 0 ≤ lines s →
                  (lines s + rows (board s)) `div` 10 ≤ bound →
                  ∃ s', r = Ok s')) ∧
  (∃ s', tick shuffle now s = Ok s' ∧ gameover s' = true).
Proof.
  intros Hwf Hcur Hover Hfuel. split.
  - assert (Hpure : ∀ s1 : t, gameover s1 = true →
      ∃ r, Some (Ok s1) = Some r ∧
           (∀ s', r = Ok s' → gameover s' = true) ∧
           (key ≠ ord_space → ∃ s', r = Ok s') ∧
           (∀ bound, gravity_defined bound → 0 ≤ lines s →
                     (lines s + rows (board s)) `div` 10 ≤ bound →
                     ∃ s', r = Ok s')).
    { intros s1 Hs1. exists (Ok s1). split; [done|].
      split_and!; [by intros s' [= <-]|by eexists..]. }
    unfold handle_input.
    destruct (key =? -1); [by apply Hpure|].
    destruct ((key =? KEY_LEFT) || (key =? ord_a)).
    { destruct (move_current_Ok (-1) 0 s Hwf) as (m & c & -> & _).
      by apply Hpure. }
    destruct ((key =? KEY_RIGHT) || (key =? ord_d)).
    { destruct (move_current_Ok 1 0 s Hwf) as (m & c & -> & _).
      by apply Hpure. }
    destruct (key =? KEY_DOWN).
    { unfold soft_drop.
      destruct (move_current_Ok 0 1 s Hwf) as (m & c & -> & _).
      destruct m; by apply Hpure. }
    destruct ((key =? ord_z) || (key =? ord_Z)).
    { destruct (rotate_current_Ok (-1) s Hwf) as (c & -> & _). by apply Hpure. }
    destruct ((key =? ord_x) || (key =? ord_X)).
    { destruct (rotate_current_Ok 1 s Hwf) as (c & -> & _). by apply Hpure. }
    destruct (Z.eqb_spec key ord_space) as [Hkey|Hkey].
    { unfold hard_drop. destruct Hcur as [cur Hcur]. rewrite Hcur.
      destruct (drop_loop_fuel fuel s Hwf Hfuel) as [r Hr]. rewrite Hr.
      destruct (drop_loop_result fuel s r Hwf Hr) as (c & -> & Hc).
      destruct Hc as [cur' ->]; [by rewrite Hcur|]. rewrite bind_Ok_l.
      eexists. split; [done|]. split_and!.
      - intros s' Hlock.
        apply (lock_piece_latch shuffle shuffle_perm) in Hlock
          as (_ & _ & Hgo); [by apply Hgo|done|by eexists].
      - done.
      - intros bound Hpow Hln Hbound.
        destruct (lock_piece_Ok shuffle shuffle_perm bound
                    (set_current s (Some cur')) Hpow Hwf Hln Hbound)
          as (s' & -> & _); [by eexists|]. by eexists. }
    destruct ((key =? ord_p) || (key =? ord_P)); [by apply Hpure|].
    destruct ((key =? ord_q) || (key =? ord_Q)); by apply Hpure.
  - unfold tick. rewrite Hover, orb_true_r. by eexists.
Qed.

End Latch.

(** *** Construction *)

Section Construction.
Context {F : Float} {rng : Type}.
Variable shuffle : rng → list Kind → list Kind * rng.
Hypothesis shuffle_perm : ∀ g l, (shuffle g l).1 ≡ₚ l.

(** Every kind spawns without collision on the empty standard board, so
    [__init__] returns, when [0.85**0] and [init_curses] do, a running
    game with a current piece, a queued kind and all counters at zero; it
    raises what [0.85**0] raises and else what [init_curses] raises. *)
Lemma init_spec (init_curses : result ()) (g : rng) (now : float) :
  match level_to_interval 0, init_curses with
  | Raise e, _ => TetrisGame.init shuffle init_curses g now = Raise e
  | Ok _, Raise e => TetrisGame.init shuffle init_curses g now = Raise e
  | Ok interval, Ok _ =>
      ∃ s, TetrisGame.init shuffle init_curses g now = Ok s ∧
           board s = Board.init BOARD_WIDTH BOARD_HEIGHT HIDDEN_ROWS ∧
           score s = 0 ∧ level s = 0 ∧ lines s = 0 ∧
           drop_interval s = interval ∧
           is_Some (current s) ∧ is_Some (next_piece s) ∧
           gameover s = false ∧ paused s = false
  end.
Proof.
  unfold TetrisGame.init.
  destruct (level_to_interval 0) as [interval|e]; [|done].
  destruct init_curses as [[]|e]; [|done]. rewrite !bind_Ok_l.
  set (s0 := TetrisGame.mk _ _ _ _ _ _ _ _ _ _ _ _ _).
  destruct (spawn_kind_Ok shuffle shuffle_perm s0) as [kind Hkind].
  assert (Hv : valid (board s0) (spawn_piece (board s0) kind) = Ok true)
    by (by destruct kind).
  destruct (spawn_next_spec shuffle shuffle_perm s0 kind true Hkind Hv)
    as (s & -> & (Hb & Hsc & Hlv & Hln & _ & Hdi & _ & Hpa) & Hcur & Hgo & Hnext).
  exists s. split; [done|]. rewrite Hb, Hsc, Hlv, Hln, Hdi, Hcur, Hgo, Hpa.
  split_and!; eauto.
Qed.

End Construction.

(** C1 at a failing input.  An O piece has come to rest on a stack that
    reaches the top of the visible field, so it lies in the hidden rows 2
    and 3.  After [lock_piece] the hidden rows are occupied, as
    [Board.game_over] reports, and the next piece spawns above them without
    collision: [gameover] stays false. *)
Lemma lock_in_hidden_rows :
  ∃ b1 s',
    place (board Samples.lockout_game) (Piece.mk KO 0 3 2) = Ok b1 ∧
    game_over b1 = Ok true ∧
    lock_piece Samples.rot_shuffle Samples.lockout_game = Ok s' ∧
    board s' = b1 ∧
    game_over (board s') = Ok true ∧
    gameover s' = false.
Proof.
  eexists _, _. split; [vm_compute; reflexivity|].
  split; [reflexivity|]. split; [vm_compute; reflexivity|].
  split_and!; reflexivity.
Qed.

(** *** The scenarios of the specification *)

Example clear_lines_four_rows :
  clear_lines Samples.four_rows =
    (2, Board.mk 10 4 0 [Samples.empty_row; Samples.empty_row;
                         Samples.left2_row; Samples.empty_row]).
Proof. reflexivity. Qed.

Example kick_left_before_right :
  valid Samples.kick_board (Piece.mk KT 1 3 10) = Ok false ∧
  valid Samples.kick_board (Piece.mk KT 1 2 10) = Ok true ∧
  valid Samples.kick_board (Piece.mk KT 1 4 10) = Ok true ∧
  rotate_current 1 Samples.kick_game =
    Ok (set_current Samples.kick_game (Some (Piece.mk KT 1 2 10))).
Proof. split_and!; reflexivity. Qed.

Example kick_off_the_wall :
  valid Samples.empty_board (Piece.mk KI 2 7 10) = Ok false ∧
  rotate_current 1 Samples.wall_game =
    Ok (set_current Samples.wall_game (Some (Piece.mk KI 2 6 10))).
Proof. split; reflexivity. Qed.

Example score_table :
  ∀ lvl, lvl = 0 ∨ lvl = 1 →
  score <$> result_to_option
              (lock_piece Samples.rot_shuffle (Samples.well_game 1 lvl))
    = Some (40 * (lvl + 1)) ∧
  score <$> result_to_option
              (lock_piece Samples.rot_shuffle (Samples.well_game 2 lvl))
    = Some (100 * (lvl + 1)) ∧
  score <$> result_to_option
              (lock_piece Samples.rot_shuffle (Samples.well_game 3 lvl))
    = Some (300 * (lvl + 1)) ∧
  score <$> result_to_option
              (lock_piece Samples.rot_shuffle (Samples.well_game 4 lvl))
    = Some (1200 * (lvl + 1)).
Proof. intros lvl [-> | ->]; split_and!; vm_compute; reflexivity. Qed.

(** A lock that takes the level to -4400 raises what [0.85**level]
    raises there. *)
Example lock_out_of_range :
  (lines Samples.overflow_game + 1) `div` 10 = -4400 ∧
  @float_pow Samples.rationals lit_0_85 (-4400) = Raise OverflowError ∧
  lock_piece Samples.rot_shuffle Samples.overflow_game = Raise OverflowError.
Proof. split_and!; reflexivity. Qed.

End EngineFacts.

(** * Further properties of the code *)

(** ** Pieces: geometry and rotation *)

Module PieceGeometry.
Import Invariants.

Lemma state_cases (k : Kind) (r : Z) :
  ∃ n, (n < 4)%nat ∧
       Piece.state (Piece.mk k r 0 0) = default [] (TETROMINOES k !! n).
Proof.
  exists (Z.to_nat (r `mod` 4)). split; [|done].
  pose proof (Z.mod_pos_bound r 4). lia.
Qed.

Lemma state_only_kind_rotation (p : Piece.t) :
  Piece.state p = Piece.state (Piece.mk (Piece.kind p) (Piece.rotation p) 0 0).
Proof. done. Qed.

Lemma state_in_box (p : Piece.t) :
  NoDup (Piece.state p) ∧
  Forall (λ b, (0 ≤ b.1 ≤ 3) ∧ (0 ≤ b.2 ≤ 3)) (Piece.state p).
Proof.
  rewrite state_only_kind_rotation.
  destruct (state_cases (Piece.kind p) (Piece.rotation p)) as (n & Hn & ->).
  destruct (Piece.kind p); do 4 (destruct n as [|n]; [split;
    [by apply (bool_decide_unpack _)
    |repeat constructor; simpl; lia]|]); lia.
Qed.

(** X5.  The blocks of a piece are 4 different cells, all within the 4x4
    box whose corner is the origin of the piece. *)
Theorem blocks_in_box (p : Piece.t) :
  length (Piece.blocks p) = 4%nat ∧
  NoDup (Piece.blocks p) ∧
  ∀ x y, (x, y) ∈ Piece.blocks p →
         Piece.x p ≤ x ≤ Piece.x p + 3 ∧ Piece.y p ≤ y ≤ Piece.y p + 3.
Proof.
  destruct (state_in_box p) as [Hnd Hbox].
  split; [apply PieceFacts.length_blocks|]. split.
  - unfold Piece.blocks. apply NoDup_fmap_2; [|done].
    intros [a b] [c d] [= ? ?]. f_equal; lia.
  - intros x y Hxy. unfold Piece.blocks in Hxy.
    apply list_elem_of_fmap in Hxy as ([bx b_y] & [= -> ->] & Hb).
    eapply Forall_forall in Hbox; eauto. simpl in *. lia.
Qed.

Lemma state_rotation_mod (k : Kind) (r r' x y x' y' : Z) :
  r `mod` 4 = r' `mod` 4 →
  Piece.state (Piece.mk k r x y) = Piece.state (Piece.mk k r' x' y').
Proof. intros Hr. unfold Piece.state. simpl. by rewrite Hr. Qed.

(** X6.  Rotations compose by adding their deltas; the cells of a piece
    depend on the rotation modulo 4 only, so four quarter turns, or a turn
    and the turn back, give the cells the piece had. *)
Theorem rotation_round_trip (p : Piece.t) (d e : Z) :
  Piece.rotated (Piece.rotated p d) e = Piece.rotated p (d + e) ∧
  Piece.blocks (Piece.rotated p 4) = Piece.blocks p ∧
  Piece.blocks (Piece.rotated (Piece.rotated p d) (- d)) = Piece.blocks p.
Proof.
  assert (Hcomp : ∀ a b, Piece.rotated (Piece.rotated p a) b
                         = Piece.rotated p (a + b)).
  { intros a b. unfold Piece.rotated. simpl. f_equal.
    rewrite Z.add_mod_idemp_l by lia. f_equal. lia. }
  assert (Hblocks : ∀ a, a `mod` 4 = 0 →
                         Piece.blocks (Piece.rotated p a) = Piece.blocks p).
  { intros a Ha.
    assert (Hst : Piece.state (Piece.rotated p a) = Piece.state p).
    { destruct p as [k r x y]. apply state_rotation_mod.
      rewrite Z.mod_mod by lia.
      rewrite <- Z.add_mod_idemp_r, Ha, Z.add_0_r by lia. done. }
    unfold Piece.blocks. by rewrite Hst. }
  split; [apply Hcomp|]. split; [by apply Hblocks|].
  rewrite Hcomp. apply Hblocks. by rewrite Z.add_opp_diag_r.
Qed.

End PieceGeometry.

(** ** Board: how the operations compose *)

Module BoardComposition.
Import Py PyFacts Board BoardFacts PlaceFacts ClearFacts Invariants.

Lemma valid_true_iff (b : Board.t) (q : Piece.t) :
  well_formed b →
  valid b q = Ok true ↔ Forall (free b) (Piece.blocks q).
Proof.
  intros Hwf.
  destruct (valid_loop_spec b (Piece.blocks q) Hwf) as (v & Hv & Hiff).
  unfold valid. rewrite Hv. rewrite <- Hiff. split; congruence.
Qed.

(** X2.  After [place] has written a piece, another piece is valid on the
    board exactly when it was valid before and shares no cell with the
    placed piece; in particular the placed piece itself is not valid
    any more. *)
Theorem valid_after_place (b : Board.t) (p : Piece.t) :
  well_formed b →
  ∃ b', place b p = Ok b' ∧
        (∀ q, valid b' q = Ok true ↔
              valid b q = Ok true ∧
              ∀ c, c ∈ Piece.blocks q → c ∉ Piece.blocks p) ∧
        valid b' p = Ok false.
Proof.
  intros Hwf.
  destruct (place_loop_spec (Piece.kind p) (Piece.blocks p) b Hwf)
    as (b' & Hplace & Hwf' & (Hw & Hh & Hd) & Hcell).
  exists b'. split; [done|].
  assert (Hq : ∀ q, valid b' q = Ok true ↔
                    valid b q = Ok true ∧
                    ∀ c, c ∈ Piece.blocks q → c ∉ Piece.blocks p).
  { intros q. rewrite !valid_true_iff by done. rewrite !Forall_forall.
    unfold free. rewrite Hw, Hh, Hd.
    assert (Hone : ∀ c : Z * Z,
               (0 ≤ c.1 < width b ∧ 0 ≤ c.2 < height b + hidden b) →
               cell b' (Z.to_nat c.1) (Z.to_nat c.2) = Some None ↔
               cell b (Z.to_nat c.1) (Z.to_nat c.2) = Some None ∧
               c ∉ Piece.blocks p).
    { intros [x y] [Hx Hy]. simpl in *. rewrite Hcell.
      rewrite !Z2Nat.id by lia.
      destruct (cell b (Z.to_nat x) (Z.to_nat y)) as [c|]; simpl;
        [|split; [done|by intros [? _]]].
      case_bool_decide as Hin.
      - split; [done|]. by intros [_ ?].
      - split; [by intros [= ->]|by intros [[= ->] _]]. }
    split.
    - intros H. split.
      + intros c Hc. destruct (H c Hc) as [Hb Hfree].
        split; [done|]. by apply Hone in Hfree as [? _].
      + intros c Hc. destruct (H c Hc) as [Hb Hfree].
        by apply Hone in Hfree as [_ ?].
    - intros [H Hdis] c Hc. destruct (H c Hc) as [Hb Hfree].
      split; [done|]. apply Hone; [done|]. split; [done|]. by apply Hdis. }
  split; [exact Hq|].
  destruct (valid_loop_spec b' (Piece.blocks p) Hwf') as ([|] & Hv & _);
    [|exact Hv].
  apply Hq in Hv as [_ Hdis].
  pose proof (PieceFacts.length_blocks p) as Hlen.
  destruct (Piece.blocks p) as [|c rest]; [done|].
  exfalso. apply (Hdis c); apply elem_of_cons; by left.
Qed.

Lemma valid_after_place_witness :
  well_formed Samples.left_stack ∧
  ∃ b', place Samples.left_stack Samples.O_spawn = Ok b' ∧
        (∀ q, valid b' q = Ok true ↔
              valid Samples.left_stack q = Ok true ∧
              ∀ c, c ∈ Piece.blocks q → c ∉ Piece.blocks Samples.O_spawn) ∧
        valid b' Samples.O_spawn = Ok false.
Proof.
  assert (Hwf : well_formed Samples.left_stack).
  { split; [reflexivity|]. vm_compute. repeat constructor. }
  split; [exact Hwf|]. exact (valid_after_place _ _ Hwf).
Defined.

Lemma empty_row_not_full (w : Z) :
  0 < w → ¬ full (replicate (Z.to_nat w) None).
Proof.
  intros Hw Hfull. destruct (Z.to_nat w) as [|n] eqn:Hn; [lia|].
  simpl in Hfull. apply Forall_cons in Hfull as [[k Hk] _]. done.
Qed.

Lemma clear_lines_no_full_row (b : Board.t) :
  0 < width b → no_full_row (clear_lines b).2.
Proof.
  intros Hw. rewrite clear_lines_spec. unfold no_full_row. simpl.
  apply Forall_app. split.
  - apply Forall_replicate. by apply empty_row_not_full.
  - apply Forall_forall. by intros row [? _]%list_elem_of_filter.
Qed.

Lemma filter_none {A} (P : A → Prop) `{∀ x, Decision (P x)} (l : list A) :
  Forall (λ x, ¬ P x) l → filter P l = [] ∧ filter (λ x, ¬ P x) l = l.
Proof.
  induction 1 as [|x l Hx _ [IH1 IH2]]; [done|].
  rewrite filter_cons_False, filter_cons_True by done.
  by rewrite IH1, IH2.
Qed.

Lemma clear_lines_nothing (b : Board.t) :
  no_full_row b → clear_lines b = (0, b).
Proof.
  intros Hno. rewrite clear_lines_spec.
  destruct (filter_none full (grid b) Hno) as [-> ->]. by destruct b.
Qed.

(** X3.  On a board of positive width [clear_lines] leaves no full row,
    so clearing again removes nothing and returns 0. *)
Theorem clear_lines_idempotent (b : Board.t) :
  0 < width b →
  (∀ row, row ∈ grid (clear_lines b).2 → ¬ full row) ∧
  clear_lines (clear_lines b).2 = (0, (clear_lines b).2).
Proof.
  intros Hw. pose proof (clear_lines_no_full_row b Hw) as Hno. split.
  - intros row Hrow. eapply Forall_forall in Hno; eauto.
  - by apply clear_lines_nothing.
Qed.

Lemma clear_lines_idempotent_witness :
  0 < width Samples.four_rows ∧
  (∀ row, row ∈ grid (clear_lines Samples.four_rows).2 → ¬ full row) ∧
  clear_lines (clear_lines Samples.four_rows).2
    = (0, (clear_lines Samples.four_rows).2).
Proof.
  split; [reflexivity|]. apply (clear_lines_idempotent Samples.four_rows).
  reflexivity.
Defined.

(** X4.  On a board without columns every row counts as full: whatever
    its height, [clear_lines] returns the number of rows and leaves the
    board as it was. *)
Theorem clear_lines_zero_width (b : Board.t) :
  well_formed b → width b ≤ 0 →
  clear_lines b = (Z.of_nat (length (grid b)), b).
Proof.
  intros [_ Hrows] Hw. rewrite clear_lines_spec.
  assert (Hnil : Forall (λ row, row = []) (grid b)).
  { eapply Forall_impl; [exact Hrows|]. intros row Hlen. simpl in Hlen.
    apply length_zero_iff_nil. lia. }
  assert (Hall : filter full (grid b) = grid b ∧
                 filter (λ row, ¬ full row) (grid b) = []).
  { clear Hrows. induction Hnil as [|row g -> _ [IH1 IH2]]; [done|].
    rewrite filter_cons_True by constructor.
    rewrite filter_cons_False by (intros Hn; apply Hn; constructor).
    by rewrite IH1, IH2. }
  destruct Hall as [-> ->]. f_equal. destruct b as [w h d g]. simpl in *.
  unfold with_grid. simpl. f_equal. rewrite app_nil_r.
  replace (Z.to_nat w) with 0%nat by lia. simpl.
  clear Hrows. induction Hnil as [|row g' -> _ IH]; [done|].
  simpl. by rewrite IH.
Qed.

Lemma clear_lines_zero_width_witness :
  well_formed (Board.init 0 20 4) ∧ width (Board.init 0 20 4) ≤ 0 ∧
  clear_lines (Board.init 0 20 4)
    = (Z.of_nat (length (grid (Board.init 0 20 4))), Board.init 0 20 4).
Proof.
  split; [apply Collision.init_well_formed|]. split; [simpl; lia|].
  apply clear_lines_zero_width; [apply Collision.init_well_formed|simpl; lia].
Defined.

End BoardComposition.

(** ** The engine: moves, rotations and drops *)

Module Motion.
Import Py PyFacts Board BoardFacts PlaceFacts ClearFacts TetrisGame BagFacts.
Import EngineFacts Invariants BoardComposition.

Lemma valid_blocks (b : Board.t) (p q : Piece.t) :
  Piece.blocks p = Piece.blocks q → valid b p = valid b q.
Proof. unfold valid. by intros ->. Qed.

Lemma lowered_0 (p : Piece.t) : lowered p 0 = p.
Proof. destruct p as [k r x y]. unfold lowered. simpl. f_equal. lia. Qed.

Section Pieces.
Context {F : Float} {rng : Type}.

Local Abbreviation t := (TetrisGame.t F rng).

Lemma set_current_same (s : t) (c : option Piece.t) :
  current s = c → set_current s c = s.
Proof. intros <-. by destruct s. Qed.

Lemma move_current_cases (dx dy : Z) (s : t) (cur : Piece.t) :
  let moved := Piece.mk (Piece.kind cur) (Piece.rotation cur)
                        (Piece.x cur + dx) (Piece.y cur + dy) in
  well_formed (board s) → current s = Some cur →
  (valid (board s) moved = Ok true ∧
   move_current dx dy s = Ok (true, set_current s (Some moved))) ∨
  (valid (board s) moved = Ok false ∧ move_current dx dy s = Ok (false, s)).
Proof.
  intros moved Hwf Hcur. unfold move_current. rewrite Hcur. fold moved.
  destruct (valid_Ok (board s) moved Hwf) as [[|] Hv]; rewrite Hv; auto.
Qed.

Lemma kick_loop_cases (s : t) (np : Piece.t) (dxs : list Z) :
  well_formed (board s) →
  kick_loop s np dxs = Ok s ∨
  ∃ dx, dx ∈ dxs ∧
        let candidate := Piece.mk (Piece.kind np) (Piece.rotation np)
                                  (Piece.x np + dx) (Piece.y np) in
        valid (board s) candidate = Ok true ∧
        kick_loop s np dxs = Ok (set_current s (Some candidate)).
Proof.
  intros Hwf. induction dxs as [|d dxs IH]; simpl; [by left|].
  match goal with |- context [valid ?b ?p] =>
    destruct (valid_Ok b p Hwf) as [[|] Hv]; rewrite Hv end; simpl.
  - right. exists d. split; [apply elem_of_cons; by left|done].
  - destruct IH as [IH|(dx & Hdx & IH)]; [by left|].
    right. exists dx. split; [apply elem_of_cons; by right|done].
Qed.

(** X7.  The O piece has the same cells in every rotation state, so a
    rotation request on an O piece that the board validates always
    succeeds without a kick and leaves the cells of the piece where they
    were. *)
Theorem O_rotation_keeps_cells (s : t) (cur : Piece.t) (delta : Z) :
  current s = Some cur →
  Piece.kind cur = KO →
  valid (board s) cur = Ok true →
  rotate_current delta s = Ok (set_current s (Some (Piece.rotated cur delta))) ∧
  Piece.blocks (Piece.rotated cur delta) = Piece.blocks cur.
Proof.
  intros Hcur HO Hvalid.
  assert (Hst : ∀ r x y, Piece.state (Piece.mk KO r x y)
                         = [(1, 0); (2, 0); (1, 1); (2, 1)]).
  { intros r x y.
    change (Piece.state (Piece.mk KO r x y))
      with (Piece.state (Piece.mk KO r 0 0)).
    destruct (PieceGeometry.state_cases KO r) as (n & Hn & ->).
    do 4 (destruct n as [|n]; [done|]). lia. }
  assert (Hblocks : Piece.blocks (Piece.rotated cur delta) = Piece.blocks cur).
  { destruct cur as [k r x y]. simpl in HO. subst k.
    unfold Piece.blocks, Piece.rotated. simpl. by rewrite !Hst. }
  split; [|done]. unfold rotate_current. rewrite Hcur.
  set (cand := Piece.mk (Piece.kind (Piece.rotated cur delta))
                        (Piece.rotation (Piece.rotated cur delta))
                        (Piece.x (Piece.rotated cur delta) + 0)
                        (Piece.y (Piece.rotated cur delta))).
  assert (Hcand : cand = Piece.rotated cur delta).
  { unfold cand. destruct (Piece.rotated cur delta). simpl. f_equal. lia. }
  change KICKS with ([] ++ 0 :: [-1; 1; -2; 2]).
  rewrite (kick_loop_first s (Piece.rotated cur delta) [] [-1; 1; -2; 2] 0).
  - fold cand. by rewrite Hcand.
  - intros d Hd. by apply elem_of_nil in Hd.
  - fold cand. rewrite Hcand, (valid_blocks _ _ cur) by done. done.
Qed.

(** X9.  A move that succeeds from a position the board validates is
    undone by the opposite move: it succeeds too and gives the game as it
    was. *)
Theorem move_round_trip (s s1 : t) (cur : Piece.t) (dx dy : Z) :
  current s = Some cur →
  valid (board s) cur = Ok true →
  move_current dx dy s = Ok (true, s1) →
  move_current (- dx) (- dy) s1 = Ok (true, s).
Proof.
  intros Hcur Hvalid Hmove.
  unfold move_current in Hmove. rewrite Hcur in Hmove.
  set (moved := Piece.mk (Piece.kind cur) (Piece.rotation cur)
                         (Piece.x cur + dx) (Piece.y cur + dy)) in Hmove.
  destruct (valid (board s) moved) as [[|]|e]; simpl in Hmove; try done.
  injection Hmove as <-.
  unfold move_current. simpl.
  set (back := Piece.mk _ _ _ _).
  assert (Hback : back = cur).
  { unfold back. destruct cur as [k r x y]. simpl. f_equal; lia. }
  clearbody back. subst back. rewrite Hvalid. simpl. do 2 f_equal.
  destruct s; simpl in *; by subst.
Qed.

End Pieces.

Lemma O_rotation_keeps_cells_witness :
  current Samples.paused_game = Some Samples.O_spawn ∧
  Piece.kind Samples.O_spawn = KO ∧
  valid (board Samples.paused_game) Samples.O_spawn = Ok true ∧
  rotate_current (-1) Samples.paused_game
    = Ok (set_current Samples.paused_game
            (Some (Piece.rotated Samples.O_spawn (-1)))) ∧
  Piece.blocks (Piece.rotated Samples.O_spawn (-1))
    = Piece.blocks Samples.O_spawn.
Proof.
  split; [reflexivity|]. split; [reflexivity|]. split; [reflexivity|].
  exact (O_rotation_keeps_cells Samples.paused_game Samples.O_spawn (-1)
           eq_refl eq_refl eq_refl).
Defined.

Lemma move_round_trip_witness :
  current Samples.paused_game = Some Samples.O_spawn ∧
  valid (board Samples.paused_game) Samples.O_spawn = Ok true ∧
  move_current (-1) 0 Samples.paused_game
    = Ok (true, set_current Samples.paused_game (Some (Piece.mk KO 0 2 0))) ∧
  move_current (- -1) (- 0)
               (set_current Samples.paused_game (Some (Piece.mk KO 0 2 0)))
    = Ok (true, Samples.paused_game).
Proof.
  split; [reflexivity|]. split; [reflexivity|]. split; [reflexivity|].
  exact (move_round_trip Samples.paused_game _ Samples.O_spawn (-1) 0
           eq_refl eq_refl eq_refl).
Defined.

End Motion.

Module Dropping.
Import Py PyFacts Board BoardFacts TetrisGame BagFacts EngineFacts.
Import Invariants BoardComposition Motion.

Lemma lowered_lowered (p : Piece.t) (n m : Z) :
  lowered (lowered p n) m = lowered p (n + m).
Proof. unfold lowered. simpl. f_equal. lia. Qed.

Section Drop.
Context {F : Float} {rng : Type}.
Variable shuffle : rng → list Kind → list Kind * rng.

Local Abbreviation t := (TetrisGame.t F rng).

(** Where the loop of [hard_drop] stops: at the first row from which the
    piece cannot go one row down. *)
Lemma drop_loop_lands (fuel : nat) (s : t) (cur : Piece.t) (r : result t) :
  well_formed (board s) → current s = Some cur →
  drop_loop fuel s = Some r →
  ∃ n, 0 ≤ n ∧
       (∀ k, 1 ≤ k ≤ n → valid (board s) (lowered cur k) = Ok true) ∧
       valid (board s) (lowered cur (n + 1)) = Ok false ∧
       r = Ok (set_current s (Some (lowered cur n))).
Proof.
  revert s cur. induction fuel as [|fuel IH]; intros s cur Hwf Hcur; [done|].
  simpl.
  assert (Hmoved : Piece.mk (Piece.kind cur) (Piece.rotation cur)
                            (Piece.x cur + 0) (Piece.y cur + 1)
                   = lowered cur 1).
  { unfold lowered. f_equal. lia. }
  destruct (move_current_cases 0 1 s cur Hwf Hcur) as [[Hv ->]|[Hv ->]];
    rewrite Hmoved in *.
  - intros Hr.
    destruct (IH (set_current s (Some (lowered cur 1))) (lowered cur 1) Hwf
                 eq_refl Hr) as (n & Hn & Hup & Hstop & ->).
    simpl in Hup, Hstop. exists (n + 1). split; [lia|]. split_and!.
    + intros k Hk. destruct (decide (k = 1)) as [->|Hk1]; [done|].
      specialize (Hup (k - 1)). rewrite lowered_lowered in Hup.
      replace (1 + (k - 1)) with k in Hup by lia. apply Hup. lia.
    + rewrite lowered_lowered in Hstop.
      by replace (n + 1 + 1) with (1 + (n + 1)) by lia.
    + rewrite lowered_lowered. by replace (n + 1) with (1 + n) by lia.
  - intros [= <-]. exists 0. split; [done|]. split_and!.
    + intros k Hk. lia.
    + done.
    + by rewrite lowered_0, set_current_same.
Qed.

(** X10.  With fuel for every row of the grid, [hard_drop] on a current
    piece lowers it by the greatest number of rows [n] such that the board
    validates every position on the way, and then does what [lock_piece]
    does from there; the drop itself changes nothing but [current]. *)
Theorem hard_drop_lands (fuel : nat) (s : t) (cur : Piece.t) :
  well_formed (board s) →
  current s = Some cur →
  (Z.to_nat (height (board s) + hidden (board s)) + 2 ≤ fuel)%nat →
  ∃ n, 0 ≤ n ∧
       (∀ k, 1 ≤ k ≤ n → valid (board s) (lowered cur k) = Ok true) ∧
       valid (board s) (lowered cur (n + 1)) = Ok false ∧
       hard_drop shuffle fuel s
         = Some (lock_piece shuffle (set_current s (Some (lowered cur n)))).
Proof.
  intros Hwf Hcur Hfuel.
  destruct (drop_loop_fuel fuel s Hwf Hfuel) as [r Hr].
  destruct (drop_loop_lands fuel s cur r Hwf Hcur Hr)
    as (n & Hn & Hup & Hstop & ->).
  exists n. split_and!; try done.
  unfold hard_drop. by rewrite Hcur, Hr.
Qed.

End Drop.

Lemma hard_drop_lands_witness :
  well_formed (board Samples.wall_game) ∧
  current Samples.wall_game = Some (Piece.mk KI 1 7 10) ∧
  (Z.to_nat (height (board Samples.wall_game)
             + hidden (board Samples.wall_game)) + 2 ≤ 26)%nat ∧
  ∃ n, 0 ≤ n ∧
       (∀ k, 1 ≤ k ≤ n →
             valid (board Samples.wall_game)
                   (lowered (Piece.mk KI 1 7 10) k) = Ok true) ∧
       valid (board Samples.wall_game)
             (lowered (Piece.mk KI 1 7 10) (n + 1)) = Ok false ∧
       hard_drop Samples.rot_shuffle 26 Samples.wall_game
         = Some (lock_piece Samples.rot_shuffle
                   (set_current Samples.wall_game
                      (Some (lowered (Piece.mk KI 1 7 10) n)))).
Proof.
  split; [apply Collision.init_well_formed|]. split; [reflexivity|].
  split; [simpl; lia|].
  apply (hard_drop_lands Samples.rot_shuffle 26 Samples.wall_game);
    [apply Collision.init_well_formed|reflexivity|simpl; lia].
Defined.

End Dropping.

(** ** The pause *)

Module Pausing.
Import Py PyFacts TetrisGame EngineFacts.

Section Pause.
Context {F : Float} {rng : Type}.
Variable shuffle : rng → list Kind → list Kind * rng.

Local Abbreviation t := (TetrisGame.t F rng).

Lemma set_last_drop_time_same (s : t) :
  set_last_drop_time s (last_drop_time s) = s.
Proof. by destruct s. Qed.

(** X14.  While the game is paused or over, any number of ticks returns
    and changes nothing but the drop timer, which is left at the clock
    reading of the last tick. *)
Theorem paused_ticks_freeze (nows : list float) (s : t) :
  paused s || gameover s = true →
  ticks shuffle nows s
    = Ok (set_last_drop_time s (default (last_drop_time s) (last nows))).
Proof.
  unfold ticks. revert s.
  induction nows as [|now rest IH]; intros s Hp; simpl.
  - by rewrite set_last_drop_time_same.
  - unfold tick at 1. rewrite Hp. simpl.
    rewrite (IH (set_last_drop_time s now) Hp). simpl.
    rewrite last_cons. by destruct (last rest).
Qed.

End Pause.

Lemma paused_ticks_freeze_witness :
  paused Samples.paused_game || gameover Samples.paused_game = true ∧
  ticks (F := Samples.rationals) Samples.rot_shuffle [1%Q; 2%Q; 5%Q] Samples.paused_game
    = Ok (set_last_drop_time Samples.paused_game
            (default (last_drop_time Samples.paused_game)
                     (last [1%Q; 2%Q; 5%Q]))).
Proof.
  split; [reflexivity|].
  exact (paused_ticks_freeze (F := Samples.rationals) Samples.rot_shuffle [1%Q; 2%Q; 5%Q]
           Samples.paused_game eq_refl).
Defined.

End Pausing.

(** ** The engine in play *)

Module Play.
Import Py PyFacts Board BoardFacts PlaceFacts ClearFacts TetrisGame BagFacts.
Import EngineFacts Invariants BoardComposition Motion.

Section Spawning.
Context {F : Float} {rng : Type}.
Variable shuffle : rng → list Kind → list Kind * rng.
Hypothesis shuffle_perm : ∀ g l, (shuffle g l).1 ≡ₚ l.

Local Abbreviation t := (TetrisGame.t F rng).

Lemma next_from_bag_NoDup (s s' : t) (k : Kind) :
  NoDup (bag s) → next_from_bag shuffle s = Ok (k, s') → NoDup (bag s').
Proof.
  intros Hnd. destruct (bag s) as [|k0 rest] eqn:Hbag.
  - destruct (next_from_bag_refill shuffle shuffle_perm s Hbag)
      as (k1 & rest & g & _ & Hperm & ->).
    intros [= _ <-]. simpl.
    assert (Hnd' : NoDup (k1 :: rest)) by (rewrite Hperm; apply keys_NoDup).
    by apply NoDup_cons in Hnd' as [_ ?].
  - rewrite (next_from_bag_pending shuffle s k0 rest Hbag).
    intros [= _ <-]. simpl. by apply NoDup_cons in Hnd as [_ ?].
Qed.

(** What a spawn that returned has done to the queue and to the bag. *)
Lemma spawn_next_queue (s s' : t) :
  spawn_next shuffle s = Ok s' →
  is_Some (next_piece s') ∧ (NoDup (bag s) → NoDup (bag s')).
Proof.
  unfold spawn_next. intros Hs.
  apply bind_Ok in Hs as ([kind s1] & Hseed & Hs).
  apply bind_Ok in Hs as ([nk s2] & Hdraw & Hs).
  apply bind_Ok in Hs as (v & _ & Hs).
  assert (Hbag1 : NoDup (bag s) → NoDup (bag s1)).
  { destruct (next_piece s) as [k|].
    - by injection Hseed as _ <-.
    - apply bind_Ok in Hseed as ([k sa] & Hsa & [= _ <-]).
      intros Hnd. simpl. by apply (next_from_bag_NoDup s sa k). }
  assert (Hbag2 : NoDup (bag s1) → NoDup (bag s2))
    by (intros Hnd; by apply (next_from_bag_NoDup s1 s2 nk)).
  destruct v; simpl in Hs; injection Hs as <-; simpl; eauto.
Qed.

(** X12.  On a board of the constructed shape a spawn returns with a
    queued kind, and the spawn after it makes a piece of that kind the
    current piece: the preview shows what comes next.  With a kind queued
    and a kind pending in the bag, the spawn takes the queued one for the
    piece, queues the front of the bag and leaves the rest in the bag. *)
Theorem spawn_preview (s : t) :
  well_formed (board s) →
  (∃ s1 k, spawn_next shuffle s = Ok s1 ∧ next_piece s1 = Some k ∧
           ∃ s2 p, spawn_next shuffle s1 = Ok s2 ∧
                   current s2 = Some p ∧ Piece.kind p = k) ∧
  (∀ k0 k1 rest,
     next_piece s = Some k0 → bag s = k1 :: rest →
     ∃ s1 p, spawn_next shuffle s = Ok s1 ∧ current s1 = Some p ∧
             Piece.kind p = k0 ∧ next_piece s1 = Some k1 ∧ bag s1 = rest).
Proof.
  intros Hwf. split.
  - destruct (spawn_kind_Ok shuffle shuffle_perm s) as [kind Hkind].
    destruct (valid_Ok (board s) (spawn_piece (board s) kind) Hwf) as [v Hv].
    destruct (spawn_next_spec shuffle shuffle_perm s kind v Hkind Hv)
      as (s1 & Hs1 & (Hb & _) & _ & _ & [k Hk]).
    exists s1, k. split; [done|]. split; [done|].
    assert (Hkind1 : spawn_kind shuffle s1 = Ok k)
      by (unfold spawn_kind; by rewrite Hk).
    destruct (valid_Ok (board s1) (spawn_piece (board s1) k)) as [v1 Hv1];
      [by rewrite Hb|].
    destruct (spawn_next_spec shuffle shuffle_perm s1 k v1 Hkind1 Hv1)
      as (s2 & Hs2 & _ & Hcur & _).
    by eexists s2, _.
  - intros k0 k1 rest Hnext Hbag. unfold spawn_next. rewrite Hnext, bind_Ok_l.
    rewrite (next_from_bag_pending shuffle s k1 rest Hbag), bind_Ok_l.
    match goal with |- context [valid ?b ?p] =>
      destruct (valid_Ok b p) as [[|] ->]; [exact Hwf| |] end;
      rewrite bind_Ok_l; simpl; by eexists _, _.
Qed.

End Spawning.

Lemma spawn_preview_witness :
  (∀ g l, (Samples.rot_shuffle g l).1 ≡ₚ l) ∧
  well_formed (board Samples.blocked_game) ∧
  (∃ s1 k, spawn_next Samples.rot_shuffle Samples.blocked_game = Ok s1 ∧
           next_piece s1 = Some k ∧
           ∃ s2 p, spawn_next Samples.rot_shuffle s1 = Ok s2 ∧
                   current s2 = Some p ∧ Piece.kind p = k) ∧
  (∀ k0 k1 rest,
     next_piece Samples.blocked_game = Some k0 →
     bag Samples.blocked_game = k1 :: rest →
     ∃ s1 p, spawn_next Samples.rot_shuffle Samples.blocked_game = Ok s1 ∧
             current s1 = Some p ∧
             Piece.kind p = k0 ∧ next_piece s1 = Some k1 ∧ bag s1 = rest).
Proof.
  assert (Hwf : well_formed (board Samples.blocked_game)).
  { split; [reflexivity|]. vm_compute. repeat constructor. }
  split; [exact rot_shuffle_perm|]. split; [exact Hwf|].
  exact (spawn_preview Samples.rot_shuffle rot_shuffle_perm
                       Samples.blocked_game Hwf).
Defined.

Section LockThenSpawn.
Context {F : Float} {rng : Type}.
Variable shuffle : rng → list Kind → list Kind * rng.
Hypothesis shuffle_perm : ∀ g l, (shuffle g l).1 ≡ₚ l.

Local Abbreviation t := (TetrisGame.t F rng).

(** X11.  [lock_piece] with a current piece and a queued kind, on a board
    of the constructed shape, places the piece.  Whenever it returns, the
    board is the board with the piece placed and the full rows cleared,
    the current piece is of the queued kind at rotation 0 and origin
    [(width div 2 - 2, 0)], the pause flag is as before, [gameover] is
    still set if it was, and it is set if the new piece is not valid on
    the cleared board.  Whenever it raises, rows were cleared, the level
    changes and the exception is the one [0.85**level] raises at the new
    level; it returns when that power returns at the new level. *)
Theorem lock_spawns_after_clear (s : t) (cur : Piece.t) (kind : Kind) :
  let piece := Piece.mk kind 0 (width (board s) `div` 2 - 2) 0 in
  well_formed (board s) →
  current s = Some cur →
  next_piece s = Some kind →
  ∃ b1,
    place (board s) cur = Ok b1 ∧
    (∀ s', lock_piece shuffle s = Ok s' →
           board s' = (clear_lines b1).2 ∧
           current s' = Some piece ∧
           paused s' = paused s ∧
           (gameover s = true → gameover s' = true) ∧
           (valid (clear_lines b1).2 piece = Ok false → gameover s' = true)) ∧
    (∀ e, lock_piece shuffle s = Raise e →
          let new_level := (lines s + (clear_lines b1).1) `div` 10 in
          0 < (clear_lines b1).1 ∧ new_level ≠ level s ∧
          float_pow lit_0_85 new_level = Raise e) ∧
    ((∃ p, float_pow lit_0_85 ((lines s + (clear_lines b1).1) `div` 10)
           = Ok p) →
     ∃ s', lock_piece shuffle s = Ok s').
Proof.
  intros piece Hwf Hcur Hnext.
  destruct (lock_piece_spec shuffle shuffle_perm s cur Hwf Hcur)
    as (b1 & Hplace & Hraise & Hret).
  exists b1. split; [done|].
  destruct (place_loop_spec (Piece.kind cur) (Piece.blocks cur) (board s) Hwf)
    as (b1' & Hplace' & Hwf1 & (Hw1 & _) & _).
  fold (place (board s) cur) in Hplace'. rewrite Hplace in Hplace'.
  injection Hplace' as <-.
  destruct (clear_lines_well_formed b1 Hwf1) as [Hwf2 (Hw2 & _)].
  assert (Hc : 0 ≤ (clear_lines b1).1) by (rewrite clear_lines_spec; simpl; lia).
  split_and!.
  - intros s' Hlock.
    destruct (award (clear_lines b1).1 (set_board s (clear_lines b1).2))
      as [a|e] eqn:Ha; [|by rewrite (Hraise e eq_refl) in Hlock].
    destruct (Hret a eq_refl)
      as (kind' & v & s1 & Hs1 & Hv & Hfr & _ & Hcur' & Hgo & Hkind & _).
    rewrite Hs1 in Hlock. injection Hlock as ->.
    destruct (award_Ok _ _ _ Hc Ha) as ((Hb & _ & Hnx & _ & _ & Hpa & _) & _).
    simpl in Hb, Hnx, Hpa.
    unfold spawn_kind in Hkind. rewrite Hnx, Hnext in Hkind.
    injection Hkind as <-.
    assert (Hpiece : spawn_piece (clear_lines b1).2 kind = piece).
    { unfold spawn_piece, piece. by rewrite Hw2, Hw1. }
    rewrite Hpiece in Hv, Hcur'.
    destruct Hfr as (Hb' & _ & _ & _ & _ & _ & _ & Hpa').
    split_and!.
    + by rewrite Hb'.
    + done.
    + by rewrite Hpa'.
    + intros Hover. rewrite Hgo, Hover. by destruct v.
    + intros Hbad. rewrite Hv in Hbad. injection Hbad as ->. done.
  - intros e Hlock.
    destruct (award (clear_lines b1).1 (set_board s (clear_lines b1).2))
      as [a|e'] eqn:Ha.
    + destruct (Hret a eq_refl) as (? & ? & s1 & Hs1 & _).
      by rewrite Hs1 in Hlock.
    + rewrite (Hraise e' eq_refl) in Hlock. injection Hlock as ->.
      apply award_Raise in Ha as (Hc0 & Hlv & Hpow). simpl in Hlv, Hpow.
      split; [lia|done].
  - intros [p Hp].
    destruct (award_returns (clear_lines b1).1
                (set_board s (clear_lines b1).2)) as [a Ha].
    { simpl. intros _ _. eexists. apply level_to_interval_Ok. eauto. }
    destruct (Hret a Ha) as (? & ? & s' & Hs' & _). by exists s'.
Qed.

End LockThenSpawn.

Lemma lock_spawns_after_clear_witness :
  (∀ g l, (Samples.rot_shuffle g l).1 ≡ₚ l) ∧
  well_formed (board (Samples.gap_game false)) ∧
  current (Samples.gap_game false) = Some (Piece.mk KO 0 3 22) ∧
  next_piece (Samples.gap_game false) = Some KT ∧
  ∃ b1,
    place (board (Samples.gap_game false)) (Piece.mk KO 0 3 22) = Ok b1 ∧
    (∀ s', lock_piece Samples.rot_shuffle (Samples.gap_game false) = Ok s' →
           board s' = (clear_lines b1).2 ∧
           current s' =
             Some (Piece.mk KT 0
                     (width (board (Samples.gap_game false)) `div` 2 - 2) 0) ∧
           paused s' = paused (Samples.gap_game false) ∧
           (gameover (Samples.gap_game false) = true → gameover s' = true) ∧
           (valid (clear_lines b1).2
                  (Piece.mk KT 0
                     (width (board (Samples.gap_game false)) `div` 2 - 2) 0)
              = Ok false →
            gameover s' = true)) ∧
    (∀ e, lock_piece Samples.rot_shuffle (Samples.gap_game false) = Raise e →
          let new_level :=
            (lines (Samples.gap_game false) + (clear_lines b1).1) `div` 10 in
          0 < (clear_lines b1).1 ∧
          new_level ≠ level (Samples.gap_game false) ∧
          @float_pow Samples.rationals lit_0_85 new_level = Raise e) ∧
    ((∃ p, @float_pow Samples.rationals lit_0_85
             ((lines (Samples.gap_game false) + (clear_lines b1).1) `div` 10)
           = Ok p) →
     ∃ s', lock_piece Samples.rot_shuffle (Samples.gap_game false) = Ok s').
Proof.
  assert (Hwf : well_formed (board (Samples.gap_game false))).
  { apply (gap_board_well_formed 2). lia. }
  split; [exact rot_shuffle_perm|]. split; [exact Hwf|].
  split; [reflexivity|]. split; [reflexivity|].
  exact (lock_spawns_after_clear Samples.rot_shuffle rot_shuffle_perm
           (Samples.gap_game false) (Piece.mk KO 0 3 22) KT Hwf eq_refl eq_refl).
Defined.

(** *** What every call keeps *)

Section Playing.
Context {F : Float} {rng : Type}.
Variable shuffle : rng → list Kind → list Kind * rng.
Hypothesis shuffle_perm : ∀ g l, (shuffle g l).1 ≡ₚ l.
Variable bound : Z.
Hypothesis gravity : gravity_defined bound.

Local Abbreviation t := (TetrisGame.t F rng).

Lemma playable_well_formed (s : t) : playable s → well_formed (board s).
Proof. by intros (_ & _ & _ & ? & _). Qed.

Lemma playable_set_current (s : t) (p : Piece.t) :
  playable s → valid (board s) p = Ok true →
  playable (set_current s (Some p)).
Proof.
  intros Hs Hv. unfold playable in *. destruct_and!.
  simpl. split_and!; try done. by exists p.
Qed.

Lemma playable_set_score (s : t) (v : Z) :
  playable s → 0 ≤ v → playable (set_score s v).
Proof.
  intros Hs Hv. unfold playable in *. destruct_and!.
  simpl. by split_and!.
Qed.

Lemma playable_set_paused (s : t) (v : bool) :
  playable s → playable (set_paused s v).
Proof. done. Qed.

Lemma playable_set_last_drop_time (s : t) (v : float) :
  playable s → playable (set_last_drop_time s v).
Proof. done. Qed.

Lemma playable_set_gameover (s : t) :
  playable s → playable (set_gameover s true).
Proof.
  intros Hs. pose proof Hs as (_ & _ & _ & _ & _ & (cur & Hcur & _) & _).
  unfold playable in *. destruct_and!.
  simpl. split_and!; try done. by exists cur.
Qed.

Lemma playable_rows (s : t) : playable s → rows (board s) = 24.
Proof.
  intros (_ & Hh & Hd & [Hlen _] & _). unfold rows.
  rewrite Hlen, Hh, Hd. reflexivity.
Qed.

Lemma move_playable (dx dy : Z) (s : t) :
  playable s →
  ∃ m s', move_current dx dy s = Ok (m, s') ∧ playable s' ∧
          score s' = score s ∧ lines s' = lines s.
Proof.
  intros Hs. pose proof (playable_well_formed s Hs) as Hwf.
  pose proof Hs as (_ & _ & _ & _ & _ & (cur & Hcur & _) & _).
  destruct (move_current_cases dx dy s cur Hwf Hcur) as [[Hm ->]|[_ ->]].
  - eexists _, _. split; [done|]. split; [|done].
    by apply playable_set_current.
  - by eexists _, _.
Qed.

Lemma rotate_playable (delta : Z) (s : t) :
  playable s →
  ∃ s', rotate_current delta s = Ok s' ∧ playable s' ∧ lines s' = lines s.
Proof.
  intros Hs. pose proof (playable_well_formed s Hs) as Hwf.
  pose proof Hs as (_ & _ & _ & _ & _ & (cur & Hcur & _) & _).
  unfold rotate_current. rewrite Hcur.
  destruct (kick_loop_cases s (Piece.rotated cur delta) KICKS Hwf)
    as [->|(dx & _ & Hv & ->)].
  - by exists s.
  - eexists. split; [done|]. split; [|done]. by apply playable_set_current.
Qed.

(** A lock adds 24 lines at most, and keeps the game playable where
    [0.85**level] returns up to the level of that line count. *)
Lemma lock_playable (s : t) :
  playable s → (lines s + 24) `div` 10 ≤ bound →
  ∃ s', lock_piece shuffle s = Ok s' ∧ playable s' ∧
        lines s' ≤ lines s + 24.
Proof.
  intros Hs Hbound. pose proof (playable_rows s Hs) as Hrows. revert Hs.
  intros (Hw & Hh & Hd & Hwf & Hno & (cur & Hcur & _) & Hnext & Hsc & Hln
          & Hlv & Hdi & Hbag).
  destruct (lock_piece_spec shuffle shuffle_perm s cur Hwf Hcur)
    as (b1 & Hplace & _ & Hret).
  destruct (place_loop_spec (Piece.kind cur) (Piece.blocks cur) (board s) Hwf)
    as (b1' & Hplace' & Hwf1 & (Hw1 & Hh1 & Hd1) & _).
  fold (place (board s) cur) in Hplace'. rewrite Hplace in Hplace'.
  injection Hplace' as <-.
  destruct (clear_lines_well_formed b1 Hwf1) as [_ (Hw2 & Hh2 & Hd2)].
  assert (Hrows1 : rows b1 = 24).
  { rewrite <- Hrows. symmetry. by apply rows_same_frame. }
  assert (Hc : 0 ≤ (clear_lines b1).1 ≤ 24).
  { rewrite <- Hrows1, clear_lines_spec. simpl. unfold rows.
    pose proof (length_filter full (grid b1)). lia. }
  destruct (award_returns (clear_lines b1).1 (set_board s (clear_lines b1).2))
    as [a Ha].
  { simpl. intros _ _.
    destruct (gravity ((lines s + (clear_lines b1).1) `div` 10)) as [p Hp].
    { split; [apply Z.div_pos; lia|].
      etrans; [|exact Hbound]. apply Z.div_le_mono; lia. }
    eexists. apply level_to_interval_Ok. eauto. }
  destruct (Hret a Ha)
    as (kind & v & s' & Hlock & Hvalid & Hfr & Hwf' & Hcur' & Hgo & _ & Hspawn).
  exists s'. split; [done|].
  destruct (spawn_next_queue shuffle shuffle_perm _ _ Hspawn) as [Hnext' Hbag'].
  destruct (award_Ok _ _ _ (proj1 Hc) Ha)
    as ((Hab & Habag & _) & Hsc' & Hln' & Hlv' & Hsame & Hnew).
  destruct Hfr as (Hb' & Hscore & Hlevel & Hlines & _ & Hint & _).
  rewrite Hab in Hb'. simpl in Hb', Hsc', Hln', Hlv', Hsame, Hnew, Habag.
  assert (Hlevel0 : 0 ≤ level s) by (rewrite Hlv; apply Z.div_pos; lia).
  split; [|rewrite Hlines, Hln'; lia].
  unfold playable. rewrite Hb', Hw2, Hh2, Hd2, Hw1, Hh1, Hd1.
  rewrite Hscore, Hlevel, Hlines, Hint.
  split_and!; try done.
  - rewrite <- Hb'. exact Hwf'.
  - apply clear_lines_no_full_row. rewrite Hw1, Hw. done.
  - eexists. split; [exact Hcur'|]. intros Hover.
    rewrite Hover in Hgo. destruct v; [done|discriminate].
  - rewrite Hsc'.
    destruct ((clear_lines b1).1 =? 0), ((clear_lines b1).1 =? 1),
      ((clear_lines b1).1 =? 2), ((clear_lines b1).1 =? 3); nia.
  - lia.
  - rewrite Hlv', Hln'. destruct (Z.eqb_spec (clear_lines b1).1 0) as [->|_];
      [by rewrite Z.add_0_r|done].
  - destruct (decide (level a = level s)) as [Heq|Hne].
    + by rewrite Heq, (Hsame Heq).
    + by apply Hnew.
  - apply Hbag'. by rewrite Habag.
Qed.

Lemma soft_drop_playable (s : t) :
  playable s →
  ∃ m s', soft_drop s = Ok (m, s') ∧ playable s' ∧ lines s' = lines s.
Proof.
  intros Hs. unfold soft_drop.
  destruct (move_playable 0 1 s Hs) as (m & s1 & -> & Hs1 & Hsc & Hln).
  rewrite bind_Ok_l. destruct m; eexists _, _; (split; [done|]); [|done].
  split; [|done]. apply playable_set_score; [done|].
  destruct Hs1 as (_ & _ & _ & _ & _ & _ & _ & ? & _). lia.
Qed.

Lemma drop_loop_playable (fuel : nat) (s : t) (r : result t) :
  playable s → drop_loop fuel s = Some r →
  ∃ s', r = Ok s' ∧ playable s' ∧ lines s' = lines s.
Proof.
  revert s. induction fuel as [|fuel IH]; intros s Hs; [done|]. simpl.
  destruct (move_playable 0 1 s Hs) as (m & s1 & -> & Hs1 & _ & Hln).
  destruct m.
  - intros Hr. destruct (IH s1 Hs1 Hr) as (s' & -> & Hs' & Hln').
    exists s'. split; [done|]. split; [done|]. by rewrite Hln'.
  - intros [= <-]. by exists s1.
Qed.

Lemma fuel_enough (fuel : nat) (s : t) :
  playable s → (26 ≤ fuel)%nat →
  (Z.to_nat (height (board s) + hidden (board s)) + 2 ≤ fuel)%nat.
Proof. intros (_ & -> & -> & _) Hfuel. unfold BOARD_HEIGHT, HIDDEN_ROWS. lia. Qed.

Lemma hard_drop_playable (fuel : nat) (s : t) :
  playable s → (26 ≤ fuel)%nat → (lines s + 24) `div` 10 ≤ bound →
  ∃ s', hard_drop shuffle fuel s = Some (Ok s') ∧ playable s' ∧
        lines s' ≤ lines s + 24.
Proof.
  intros Hs Hfuel Hbound. pose proof (playable_well_formed s Hs) as Hwf.
  pose proof Hs as (_ & _ & _ & _ & _ & (cur & Hcur & _) & _).
  unfold hard_drop. rewrite Hcur.
  destruct (drop_loop_fuel fuel s Hwf (fuel_enough fuel s Hs Hfuel)) as [r Hr].
  rewrite Hr.
  destruct (drop_loop_playable fuel s r Hs Hr) as (s1 & -> & Hs1 & Hln1).
  rewrite bind_Ok_l. rewrite <- Hln1 in Hbound |- *.
  destruct (lock_playable s1 Hs1 Hbound) as (s' & -> & Hs' & Hln').
  by exists s'.
Qed.

Lemma handle_input_playable (fuel : nat) (key : Z) (s : t) :
  playable s → (26 ≤ fuel)%nat → (lines s + 24) `div` 10 ≤ bound →
  ∃ s', handle_input shuffle fuel key s = Some (Ok s') ∧ playable s' ∧
        lines s' ≤ lines s + 24.
Proof.
  intros Hs Hfuel Hbound. unfold handle_input.
  destruct (key =? -1); [exists s; split_and!; [done..|lia]|].
  destruct ((key =? KEY_LEFT) || (key =? ord_a)).
  { destruct (move_playable (-1) 0 s Hs) as (m & s' & -> & Hs' & _ & Hln).
    exists s'. split_and!; [done..|lia]. }
  destruct ((key =? KEY_RIGHT) || (key =? ord_d)).
  { destruct (move_playable 1 0 s Hs) as (m & s' & -> & Hs' & _ & Hln).
    exists s'. split_and!; [done..|lia]. }
  destruct (key =? KEY_DOWN).
  { destruct (soft_drop_playable s Hs) as (m & s' & -> & Hs' & Hln).
    exists s'. split_and!; [done..|lia]. }
  destruct ((key =? ord_z) || (key =? ord_Z)).
  { destruct (rotate_playable (-1) s Hs) as (s' & -> & Hs' & Hln).
    exists s'. split_and!; [done..|lia]. }
  destruct ((key =? ord_x) || (key =? ord_X)).
  { destruct (rotate_playable 1 s Hs) as (s' & -> & Hs' & Hln).
    exists s'. split_and!; [done..|lia]. }
  destruct (key =? ord_space); [by apply hard_drop_playable|].
  destruct ((key =? ord_p) || (key =? ord_P)).
  { eexists. split; [done|]. split; [by apply playable_set_paused|simpl; lia]. }
  destruct ((key =? ord_q) || (key =? ord_Q)).
  { eexists. split; [done|].
    split; [by apply playable_set_gameover|simpl; lia]. }
  exists s. split_and!; [done..|lia].
Qed.

Lemma tick_playable (now : float) (s : t) :
  playable s → (lines s + 24) `div` 10 ≤ bound →
  ∃ s', tick shuffle now s = Ok s' ∧ playable s' ∧ lines s' ≤ lines s + 24.
Proof.
  intros Hs Hbound. unfold tick.
  destruct (paused s || gameover s).
  { eexists. split; [done|].
    split; [by apply playable_set_last_drop_time|simpl; lia]. }
  destruct (float_ge _ _); [|exists s; split_and!; [done..|lia]].
  destruct (move_playable 0 1 s Hs) as (m & s1 & -> & Hs1 & _ & Hln1).
  rewrite bind_Ok_l. destruct m; simpl.
  - eexists. split; [done|].
    split; [by apply playable_set_last_drop_time|simpl; lia].
  - rewrite <- Hln1 in Hbound |- *.
    destruct (lock_playable s1 Hs1 Hbound) as (s2 & -> & Hs2 & Hln2).
    rewrite bind_Ok_l. eexists. split; [done|].
    split; [by apply playable_set_last_drop_time|done].
Qed.

Lemma react_playable (fuel : nat) (ev : event F) (s : t) :
  playable s → (26 ≤ fuel)%nat → (lines s + 24) `div` 10 ≤ bound →
  ∃ s', react shuffle fuel ev s = Some (Ok s') ∧ playable s' ∧
        lines s' ≤ lines s + 24.
Proof.
  intros Hs Hfuel Hbound. destruct ev as [key|now]; simpl.
  - by apply handle_input_playable.
  - destruct (tick_playable now s Hs Hbound) as (s' & -> & Hs' & Hln).
    by exists s'.
Qed.

Lemma play_playable (fuel : nat) (events : list (event F)) (s : t) :
  playable s → (26 ≤ fuel)%nat →
  (lines s + 24 * Z.of_nat (length events)) `div` 10 ≤ bound →
  ∃ s', play shuffle fuel events s = Some (Ok s') ∧ playable s'.
Proof.
  intros Hs Hfuel. revert s Hs.
  induction events as [|ev rest IH]; intros s Hs Hbound; simpl.
  - by exists s.
  - rewrite length_cons in Hbound.
    destruct (react_playable fuel ev s Hs Hfuel) as (s1 & -> & Hs1 & Hln1).
    { etrans; [|exact Hbound]. apply Z.div_le_mono; lia. }
    apply IH; [done|].
    etrans; [|exact Hbound]. apply Z.div_le_mono; lia.
Qed.

Lemma init_playable (g : rng) (now : float) :
  0 ≤ bound →
  ∃ s, TetrisGame.init shuffle (Ok ()) g now = Ok s ∧ playable s ∧
       gameover s = false ∧ paused s = false ∧
       score s = 0 ∧ lines s = 0.
Proof.
  intros Hbound. unfold TetrisGame.init.
  destruct (gravity 0) as [p Hp]; [done|].
  assert (Hint : level_to_interval 0
                 = Ok (float_max lit_0_05 (float_mul lit_1_0 p)))
    by (apply level_to_interval_Ok; eauto).
  rewrite Hint, !bind_Ok_l.
  set (s0 := TetrisGame.mk _ _ _ _ _ _ _ _ _ _ _ _ _).
  destruct (spawn_kind_Ok shuffle shuffle_perm s0) as [kind Hkind].
  assert (Hv : valid (board s0) (spawn_piece (board s0) kind) = Ok true)
    by (by destruct kind).
  destruct (spawn_next_spec shuffle shuffle_perm s0 kind true Hkind Hv)
    as (s & Hs & (Hb & Hsc & Hlv & Hln & _ & Hdi & _ & Hpa) & Hcur & Hgo & _).
  destruct (spawn_next_queue shuffle shuffle_perm s0 s Hs) as [Hnext Hbag].
  exists s. split; [done|]. split; [|by rewrite Hgo, Hpa, Hsc, Hln].
  unfold playable. rewrite Hb, Hsc, Hlv, Hln, Hdi. simpl.
  split_and!; try done.
  - apply Collision.init_well_formed.
  - by apply (bool_decide_unpack _).
  - eexists. split; [exact Hcur|]. intros _. exact Hv.
  - apply Hbag. constructor.
Qed.

(** X16.  The engine does not raise in play.  Where [init_curses] returns
    and [0.85**level] returns at the levels from 0 to [bound],
    [__init__] returns a running game; and from that game every sequence
    of calls of [handle_input], whatever the keys, and of [tick], whatever
    the clock reads, that is short enough for the level to stay within
    [bound] (a call adds 24 lines at most) returns and leaves the game
    playable: the grid keeps its 24 rows of 10 cells and has no full row,
    there are a current piece, valid on the board unless the game is
    over, and a queued kind, score and lines are not negative, the level
    is [lines div 10], the drop interval is the one [level_to_interval]
    returns for the level, and the bag holds no kind twice.  ([draw]
    writes to the terminal and is not part of this.) *)
Theorem play_never_raises (fuel : nat) (g : rng) (now0 : float)
    (events : list (event F)) :
  (26 ≤ fuel)%nat →
  (24 * Z.of_nat (length events)) `div` 10 ≤ bound →
  ∃ s0 s, TetrisGame.init shuffle (Ok ()) g now0 = Ok s0 ∧
          gameover s0 = false ∧ score s0 = 0 ∧ lines s0 = 0 ∧
          play shuffle fuel events s0 = Some (Ok s) ∧
          playable s.
Proof.
  intros Hfuel Hbound.
  destruct (init_playable g now0) as (s0 & Hinit & Hs0 & Hgo & _ & Hsc & Hln).
  { etrans; [|exact Hbound]. apply Z.div_pos; lia. }
  destruct (play_playable fuel events s0 Hs0 Hfuel) as (s & Hrun & Hs).
  { by rewrite Hln. }
  by exists s0, s.
Qed.

End Playing.

Lemma play_never_raises_witness :
  (∀ g l, (Samples.rot_shuffle g l).1 ≡ₚ l) ∧
  @gravity_defined Samples.rationals 12 ∧
  (26 ≤ 26)%nat ∧
  (24 * Z.of_nat
          (length [Key ord_a; @Clock Samples.rationals 1%Q; Key ord_space;
                   @Clock Samples.rationals 2%Q; Key (-1)])) `div` 10 ≤ 12 ∧
  ∃ s0 s, TetrisGame.init (F := Samples.rationals) Samples.rot_shuffle
            (Ok ()) 0%nat 0%Q = Ok s0 ∧
          gameover s0 = false ∧ score s0 = 0 ∧ lines s0 = 0 ∧
          play Samples.rot_shuffle 26
               [Key ord_a; @Clock Samples.rationals 1%Q; Key ord_space;
                @Clock Samples.rationals 2%Q; Key (-1)] s0
            = Some (Ok s) ∧
          playable s.
Proof.
  split; [exact rot_shuffle_perm|].
  split; [exact (rationals_gravity_defined 12)|].
  split; [lia|]. split; [reflexivity|].
  apply (play_never_raises (F := Samples.rationals) Samples.rot_shuffle
           rot_shuffle_perm 12 (rationals_gravity_defined 12));
    [lia|reflexivity].
Defined.

End Play.

(** ** Board: where the rows and cells are *)

Module BoardLayout.
Import Py PyFacts Board BoardFacts PlaceFacts ClearFacts Invariants.
Import BoardComposition GameOverFacts.

Lemma length_filter_full_app (pre post : list (list (option Kind))) row :
  ¬ full row →
  length (filter full (pre ++ row :: post))
  = (length (filter full pre) + length (filter full post))%nat.
Proof.
  intros Hrow. rewrite filter_app, filter_cons_False by done.
  by rewrite length_app.
Qed.

Lemma kept_row_lookup (pre post : list (list (option Kind))) row fresh :
  ¬ full row →
  (replicate (length (filter full (pre ++ row :: post))) fresh
   ++ filter (λ r, ¬ full r) (pre ++ row :: post))
    !! (length pre + length (filter full post))%nat
  = Some row.
Proof.
  intros Hrow. rewrite length_filter_full_app by done.
  pose proof (length_filter_split full pre) as Hsplit.
  rewrite lookup_app_r by (rewrite length_replicate; lia).
  rewrite length_replicate, filter_app, filter_cons_True by done.
  apply list_lookup_middle. lia.
Qed.

(** X8.  A row that is not full survives [clear_lines] and goes down by
    as many rows as there are full rows below it. *)
Theorem clear_lines_shifts_down (b : Board.t) (i : nat) row :
  grid b !! i = Some row →
  ¬ full row →
  grid (clear_lines b).2
    !! (i + length (filter full (drop (S i) (grid b))))%nat
  = Some row.
Proof.
  intros Hi Hrow. rewrite clear_lines_spec. simpl.
  pose proof (take_drop_middle (grid b) i row Hi) as Hsplit.
  assert (Hlen : length (take i (grid b)) = i).
  { apply length_take_le. apply lookup_lt_Some in Hi. lia. }
  pose proof (kept_row_lookup (take i (grid b)) (drop (S i) (grid b)) row
                (replicate (Z.to_nat (width b)) None) Hrow) as Hkept.
  by rewrite Hsplit, Hlen in Hkept.
Qed.

Lemma clear_lines_shifts_down_witness :
  grid Samples.four_rows !! 2%nat = Some Samples.left2_row ∧
  ¬ full Samples.left2_row ∧
  grid (clear_lines Samples.four_rows).2
    !! (2 + length (filter full (drop 3 (grid Samples.four_rows))))%nat
  = Some Samples.left2_row.
Proof.
  assert (Hrow : ¬ full Samples.left2_row).
  { intros H. apply Forall_forall with (x := None) in H; [by destruct H|].
    do 2 (apply elem_of_cons; right). apply elem_of_cons. by left. }
  split; [reflexivity|]. split; [exact Hrow|].
  exact (clear_lines_shifts_down Samples.four_rows 2 Samples.left2_row
           eq_refl Hrow).
Defined.

(** X1.  On a board of the constructed shape whose height is not
    negative, [game_over] returns, and returns true exactly when some cell
    of the hidden rows [0 .. hidden - 1] holds a kind. *)
Theorem game_over_detects_hidden_rows (b : Board.t) :
  well_formed b →
  0 ≤ height b →
  ∃ v, game_over b = Ok v ∧
       (v = true ↔
        ∃ x y k, 0 ≤ x < width b ∧ 0 ≤ y < hidden b ∧
                 cell b (Z.to_nat x) (Z.to_nat y) = Some (Some k)).
Proof. apply hidden_rows_occupied. Qed.

Lemma game_over_detects_hidden_rows_witness :
  well_formed Samples.top_stack ∧
  0 ≤ height Samples.top_stack ∧
  ∃ v, game_over Samples.top_stack = Ok v ∧
       (v = true ↔
        ∃ x y k, 0 ≤ x < width Samples.top_stack ∧
                 0 ≤ y < hidden Samples.top_stack ∧
                 cell Samples.top_stack (Z.to_nat x) (Z.to_nat y)
                   = Some (Some k)).
Proof.
  assert (Hwf : well_formed Samples.top_stack).
  { split; [reflexivity|]. vm_compute. repeat constructor. }
  split; [exact Hwf|]. split; [simpl; lia|].
  apply (game_over_detects_hidden_rows Samples.top_stack Hwf). simpl. lia.
Defined.

Lemma gameover_latch_witness :
  (∀ g l, (Samples.rot_shuffle g l).1 ≡ₚ l) ∧
  well_formed (TetrisGame.board (Samples.gap_game true)) ∧
  is_Some (TetrisGame.current (Samples.gap_game true)) ∧
  TetrisGame.gameover (Samples.gap_game true) = true ∧
  (Z.to_nat (height (TetrisGame.board (Samples.gap_game true))
             + hidden (TetrisGame.board (Samples.gap_game true))) + 2 ≤ 26)%nat ∧
  (∃ r, TetrisGame.handle_input Samples.rot_shuffle 26 TetrisGame.ord_space
          (Samples.gap_game true) = Some r ∧
        (∀ s', r = Ok s' → TetrisGame.gameover s' = true) ∧
        (TetrisGame.ord_space ≠ TetrisGame.ord_space → ∃ s', r = Ok s') ∧
        (∀ bound, @gravity_defined Samples.rationals bound →
                  0 ≤ TetrisGame.lines (Samples.gap_game true) →
                  (TetrisGame.lines (Samples.gap_game true)
                   + rows (TetrisGame.board (Samples.gap_game true)))
                    `div` 10 ≤ bound →
                  ∃ s', r = Ok s')) ∧
  (∃ s', TetrisGame.tick (F := Samples.rationals) Samples.rot_shuffle 1%Q
           (Samples.gap_game true) = Ok s' ∧
         TetrisGame.gameover s' = true).
Proof.
  assert (Hwf : well_formed (TetrisGame.board (Samples.gap_game true))).
  { apply (EngineFacts.gap_board_well_formed 2). lia. }
  split; [exact BagFacts.rot_shuffle_perm|]. split; [exact Hwf|].
  split; [by eexists|]. split; [reflexivity|]. split; [simpl; lia|].
  apply (EngineFacts.gameover_latch (F := Samples.rationals)
           Samples.rot_shuffle BagFacts.rot_shuffle_perm
           26 TetrisGame.ord_space 1%Q (Samples.gap_game true) Hwf);
    [by eexists|reflexivity|simpl; lia].
Defined.

Lemma init_grid (w h d : Z) :
  grid (init w h d)
  = replicate (Z.to_nat (h + d)) (replicate (Z.to_nat w) None).
Proof.
  unfold init. simpl.
  assert (Hconst : ∀ {A B} (c : B) (l : list A),
             map (λ _, c) l = replicate (length l) c).
  { intros A B c l. induction l as [|a l IH]; [done|]. simpl. by rewrite IH. }
  by rewrite !Hconst, !length_range.
Qed.

Lemma init_cell (w h d : Z) (x y : Z) :
  0 ≤ x < w → 0 ≤ y < h + d →
  cell (init w h d) (Z.to_nat x) (Z.to_nat y) = Some None.
Proof.
  intros Hx Hy. unfold cell. rewrite init_grid.
  rewrite lookup_replicate_2 by lia. simpl.
  apply lookup_replicate_2. lia.
Qed.

(** X17.  On the board that [__init__] builds every cell is empty: a
    piece is valid exactly when its cells are within the bounds, and with
    a height that is not negative [game_over] is false. *)
Theorem fresh_board (w h d : Z) (p : Piece.t) :
  (∀ x y, 0 ≤ x < w → 0 ≤ y < h + d →
          cell (init w h d) (Z.to_nat x) (Z.to_nat y) = Some None) ∧
  (∃ v, valid (init w h d) p = Ok v ∧
        (v = true ↔ ∀ x y, (x, y) ∈ Piece.blocks p →
                           0 ≤ x < w ∧ 0 ≤ y < h + d)) ∧
  (0 ≤ h → game_over (init w h d) = Ok false).
Proof.
  split; [apply init_cell|]. split.
  - destruct (valid_loop_spec (init w h d) (Piece.blocks p)
                (Collision.init_well_formed w h d)) as (v & Hv & Hiff).
    exists v. split; [done|]. rewrite Hiff, Forall_forall. split.
    + intros H x y Hxy. by destruct (H (x, y) Hxy) as [? _].
    + intros H [x y] Hxy. destruct (H x y Hxy) as [Hx Hy].
      split; [done|]. by apply init_cell.
  - intros Hh.
    destruct (hidden_rows_occupied (init w h d)
                (Collision.init_well_formed w h d) Hh)
      as ([|] & Hv & Hiff); [|done].
    destruct Hiff as [Hocc _].
    destruct (Hocc eq_refl) as (x & y & k & Hx & Hy & Hc). simpl in Hx, Hy.
    rewrite init_cell in Hc by lia. discriminate.
Qed.

End BoardLayout.
